(** * Spin lattice simulation: the lattice builder and the per-frame integrator

    A shallow embedding of [src/components/SpinGrid.tsx]: the [useEffect] that
    builds the lattice, the [useFrame] callback that advances every spin by one
    explicit Euler step of the damped-precession law, and the few
    [THREE.Vector3] methods these two call.

    JavaScript numbers are kept abstract behind the class [Number], with two
    instances: IEEE binary64 ([PrimFloat], what the program runs on, used to
    evaluate the code at concrete inputs) and the real numbers (the exact
    arithmetic in which the analytic properties are stated). *)

From Stdlib Require Import ZArith Reals Lra Lia Floats Uint63 String DecimalString.
From stdpp Require Import base list.

Set Default Proof Using "Type".
#[local] Set Warnings "-inexact-float".

(** ** Numbers *)

Class Number (T : Type) := {
  zero : T;
  one : T;
  add : T -> T -> T;
  sub : T -> T -> T;
  mul : T -> T -> T;
  div : T -> T -> T;
  neg : T -> T;
  sqrt : T -> T;
  (** [Math.min] *)
  min : T -> T -> T;
  (** an integer literal or loop counter read as a number *)
  ofZ : Z -> T;
  (** JavaScript truthiness of a number: false for 0 and NaN *)
  truthy : T -> bool
}.

Declare Scope num_scope.
Delimit Scope num_scope with num.
Infix "+" := add : num_scope.
Infix "-" := sub : num_scope.
Infix "*" := mul : num_scope.
Infix "/" := div : num_scope.
Notation "- x" := (neg x) : num_scope.

(** *** Exact arithmetic *)

#[export] Instance Number_R : Number R := {|
  zero := 0%R;
  one := 1%R;
  add := Rplus;
  sub := Rminus;
  mul := Rmult;
  div := Rdiv;
  neg := Ropp;
  sqrt := R_sqrt.sqrt;
  min := Rmin;
  ofZ := IZR;
  truthy := fun r => if Req_dec_T r 0 then false else true
|}.

(** *** IEEE binary64 *)

(** Integers up to 2^53 in absolute value are binary64 numbers; every integer
    the program converts is far below that. *)
Definition float_ofZ (k : Z) : float :=
  match k with
  | Z0 => PrimFloat.of_uint63 0
  | Zpos _ => PrimFloat.of_uint63 (Uint63.of_Z k)
  | Zneg _ => PrimFloat.opp (PrimFloat.of_uint63 (Uint63.of_Z (Z.opp k)))
  end.

(** [Math.min]: NaN if either argument is NaN, and -0 below +0. *)
Definition float_min (a b : float) : float :=
  if PrimFloat.is_nan a then a
  else if PrimFloat.is_nan b then b
  else if PrimFloat.ltb a b then a
  else if PrimFloat.ltb b a then b
  else if PrimFloat.ltb (PrimFloat.div 1 a) 0 then a else b.

#[export] Instance Number_float : Number float := {|
  zero := 0%float;
  one := 1%float;
  add := PrimFloat.add;
  sub := PrimFloat.sub;
  mul := PrimFloat.mul;
  div := PrimFloat.div;
  neg := PrimFloat.opp;
  sqrt := PrimFloat.sqrt;
  min := float_min;
  ofZ := float_ofZ;
  truthy := fun f => negb (PrimFloat.is_nan f || PrimFloat.eqb f 0)
|}.

(** ** [THREE.Vector3] *)

Module THREE.

Record Vector3 (T : Type) := mkVector3 { vx : T; vy : T; vz : T }.
Arguments mkVector3 {T} _ _ _.
Arguments vx {T} _.
Arguments vy {T} _.
Arguments vz {T} _.

Section Vector3Ops.
Context {T : Type} `{Number T}.
Local Open Scope num_scope.

Definition subVectors (a b : Vector3 T) : Vector3 T :=
  mkVector3 (vx a - vx b) (vy a - vy b) (vz a - vz b).

Definition addVectors (a b : Vector3 T) : Vector3 T :=
  mkVector3 (vx a + vx b) (vy a + vy b) (vz a + vz b).

Definition multiplyScalar (v : Vector3 T) (s : T) : Vector3 T :=
  mkVector3 (vx v * s) (vy v * s) (vz v * s).

Definition divideScalar (v : Vector3 T) (s : T) : Vector3 T :=
  multiplyScalar v (one / s).

Definition lengthSq (v : Vector3 T) : T :=
  vx v * vx v + vy v * vy v + vz v * vz v.

Definition length (v : Vector3 T) : T := sqrt (lengthSq v).

(** [this.divideScalar( this.length() || 1 )] *)
Definition normalize (v : Vector3 T) : Vector3 T :=
  divideScalar v (if truthy (length v) then length v else one).

Definition crossVectors (a b : Vector3 T) : Vector3 T :=
  mkVector3 (vy a * vz b - vz a * vy b)
            (vz a * vx b - vx a * vz b)
            (vx a * vy b - vy a * vx b).

(** [this.x += v.x * s] and so on *)
Definition addScaledVector (this v : Vector3 T) (s : T) : Vector3 T :=
  mkVector3 (vx this + vx v * s) (vy this + vy v * s) (vz this + vz v * s).

(** [this.x += v.x] and so on: the method [add] *)
Definition add_ (this v : Vector3 T) : Vector3 T :=
  mkVector3 (vx this + vx v) (vy this + vy v) (vz this + vz v).
End Vector3Ops.

End THREE.

Abbreviation Vector3 := THREE.Vector3.
Abbreviation mkVector3 := THREE.mkVector3.
Abbreviation vx := THREE.vx.
Abbreviation vy := THREE.vy.
Abbreviation vz := THREE.vz.

(** The quaternion and placement-matrix side of three.js is used only through
    two total functions whose result overwrites the receiver completely:
    [q.setFromUnitVectors(from, to)] and [matrix.compose(position, q, scale)].
    They stay abstract. *)
Class Placement (T : Type) := {
  Quaternion : Type;
  Matrix4 : Type;
  (** [new THREE.Quaternion()] *)
  identityQuaternion : Quaternion;
  setFromUnitVectors : Vector3 T -> Vector3 T -> Quaternion;
  compose : Vector3 T -> Quaternion -> Vector3 T -> Matrix4
}.

(** An instance that records the arguments, for evaluation. *)
#[export] Instance Placement_symbolic (T : Type) `{Number T} : Placement T := {|
  Quaternion := Vector3 T * Vector3 T;
  Matrix4 := Vector3 T * (Vector3 T * Vector3 T) * Vector3 T;
  identityQuaternion := (mkVector3 zero zero one, mkVector3 zero zero one);
  setFromUnitVectors := fun a b => (a, b);
  compose := fun p q s => (p, q, s)
|}.

(** ** The component *)

(** Completion of a JavaScript function body. *)
Inductive Completion (A : Type) :=
| Normal (a : A)
| Throw (e : string).
Arguments Normal {A} _.
Arguments Throw {A} _.

(** [arr[k]] for a number [k] holding an integer: [undefined] out of range. *)
Definition index {A : Type} (arr : list A) (k : Z) : option A :=
  if (k <? 0)%Z then None else arr !! Z.to_nat k.

(** The values [0, 1, ..., n-1] taken by the counter of
    [for (let i = 0; i < n; i++)]. *)
Definition range (n : Z) : list Z := seqZ 0 n.

Definition forLoop {S : Type} (n : Z) (body : Z -> S -> S) (s : S) : S :=
  fold_left (fun s i => body i s) (range n) s.

Definition string_of_Z (k : Z) : string := NilZero.string_of_int (Z.to_int k).

Section Component.
Context {T : Type} `{Number T} `{Placement T}.
Local Open Scope num_scope.

Record Spin := mkSpin {
  id : string;
  position : Vector3 T;
  direction : Vector3 T;
  matrix : Matrix4;
  neighbors : list Z
}.

Record SpinGridProps := mkProps {
  gridSize : Z;
  isFieldInverted : bool;
  gamma : T;
  alpha : T;
  exchangeStrength : T;
  externalFieldStrength : T;
  timeStepScale : T
}.

Definition SPACING : T := ofZ 1 / ofZ 2.

Definition initialUpDirection : Vector3 T := mkVector3 zero zero one.
Definition scale : Vector3 T := mkVector3 one one one.

(** The module-level helper vectors, the refs of the component, and the
    instance buffers of the two meshes ([None] while a mesh ref is null;
    [setMatrixAt] outside the buffer writes nothing). *)
Record State := mkState {
  m : Vector3 T;
  H_eff : Vector3 T;
  H_ext : Vector3 T;
  H_exch : Vector3 T;
  term1 : Vector3 T;
  term2 : Vector3 T;
  dmdt : Vector3 T;
  q : Quaternion;
  headMeshRef : option (list Matrix4);
  shaftMeshRef : option (list Matrix4);
  mousePosRef : Vector3 T;
  spinsRef : list Spin;
  prevDirectionsRef : list (Vector3 T)
}.

Definition setMatrixAt (mesh : option (list Matrix4)) (i : nat) (mat : Matrix4)
  : option (list Matrix4) :=
  match mesh with
  | Some buf => Some (<[i := mat]> buf)
  | None => None
  end.

(** *** Lattice Builder: the first [useEffect] *)

Definition buildNeighbors (gridSize i j : Z) : list Z :=
  let neighbors := [] in
  let neighbors := if (0 <? i)%Z then neighbors ++ [((i - 1) * gridSize + j)%Z] else neighbors in
  let neighbors := if (i <? gridSize - 1)%Z then neighbors ++ [((i + 1) * gridSize + j)%Z] else neighbors in
  let neighbors := if (0 <? j)%Z then neighbors ++ [(i * gridSize + (j - 1))%Z] else neighbors in
  let neighbors := if (j <? gridSize - 1)%Z then neighbors ++ [(i * gridSize + (j + 1))%Z] else neighbors in
  neighbors.

(** The body of the inner loop: the accumulator is [initialSpins] and the
    shared quaternion [q]. *)
Definition buildSite (gridSize : Z) (offset : T) (i j : Z)
    (acc : list Spin * Quaternion) : list Spin * Quaternion :=
  let position := mkVector3 (ofZ i * SPACING - offset) (ofZ j * SPACING - offset) zero in
  let direction := mkVector3 zero zero one in
  let neighbors := buildNeighbors gridSize i j in
  let q := setFromUnitVectors initialUpDirection direction in
  let matrix := compose position q scale in
  (acc.1 ++ [mkSpin (string_of_Z i ++ "-" ++ string_of_Z j) position direction matrix neighbors], q).

Definition buildSpins (gridSize : Z) (q0 : Quaternion) : list Spin * Quaternion :=
  let offset := ofZ (gridSize - 1) * SPACING / ofZ 2 in
  forLoop gridSize (fun i => forLoop gridSize (fun j => buildSite gridSize offset i j)) ([], q0).

(** [initialSpins.forEach((spin, index) => mesh.setMatrixAt(index, spin.matrix))] *)
Definition uploadAll (spins : list Spin) (mesh : option (list Matrix4)) : option (list Matrix4) :=
  fold_left (fun mesh '(index, spin) => setMatrixAt mesh index (matrix spin))
            (imap (fun index spin => (index, spin)) spins) mesh.

(** The effect has no [throw] and calls nothing that can throw: whatever
    [gridSize] is, it completes normally. *)
Definition buildLattice (props : SpinGridProps) (st : State) : Completion State :=
  let '(initialSpins, q') := buildSpins (gridSize props) (q st) in
  let both := match headMeshRef st, shaftMeshRef st with Some _, Some _ => true | _, _ => false end in
  Normal
    {| m := m st; H_eff := H_eff st; H_ext := H_ext st; H_exch := H_exch st;
       term1 := term1 st; term2 := term2 st; dmdt := dmdt st;
       q := q';
       headMeshRef := if both then uploadAll initialSpins (headMeshRef st) else headMeshRef st;
       shaftMeshRef := if both then uploadAll initialSpins (shaftMeshRef st) else shaftMeshRef st;
       mousePosRef := mousePosRef st;
       spinsRef := initialSpins;
       prevDirectionsRef := prevDirectionsRef st |}.

(** The second [useEffect]. *)
Definition snapshotEffect (st : State) : State :=
  {| m := m st; H_eff := H_eff st; H_ext := H_ext st; H_exch := H_exch st;
     term1 := term1 st; term2 := term2 st; dmdt := dmdt st; q := q st;
     headMeshRef := headMeshRef st; shaftMeshRef := shaftMeshRef st;
     mousePosRef := mousePosRef st; spinsRef := spinsRef st;
     prevDirectionsRef := map direction (spinsRef st) |}.

(** *** Frame Driver: the [useFrame] callback *)

(** [spin.neighbors.forEach(...)] accumulating into [H_exch]. *)
Definition exchangeLoop (prev : list (Vector3 T)) (neighbors : list Z)
    (H_exch : Vector3 T) : Vector3 T :=
  fold_left (fun H_exch neighborIndex =>
               match index prev neighborIndex with
               | Some d => THREE.add_ H_exch d
               | None => H_exch
               end) neighbors H_exch.

(** One call of the callback of [spinsRef.current.forEach]. *)
Definition stepSite (props : SpinGridProps) (dt : T) (st : State) (index : nat) : State :=
  match spinsRef st !! index with
  | None => st
  | Some spin =>
    let m := direction spin in
    let H_ext := THREE.subVectors (position spin) (mousePosRef st) in
    let distSq := THREE.lengthSq H_ext in
    let strength := externalFieldStrength props / (one + distSq * ofZ 5) in
    let strength := if isFieldInverted props then strength * - one else strength in
    let H_ext := THREE.multiplyScalar (THREE.normalize H_ext) strength in
    let H_exch := mkVector3 zero zero zero in
    let H_exch := exchangeLoop (prevDirectionsRef st) (neighbors spin) H_exch in
    let exchangeScaling := exchangeStrength props * ofZ 1000000 in
    let H_exch := THREE.multiplyScalar H_exch exchangeScaling in
    let H_eff := THREE.addVectors H_ext H_exch in
    let gamma_eff := gamma props / (one + alpha props * alpha props) in
    let term1 := THREE.crossVectors m H_eff in
    let term2 := THREE.crossVectors m term1 in
    let term1 := THREE.multiplyScalar term1 (- gamma_eff) in
    let term2 := THREE.multiplyScalar term2 (- gamma_eff * alpha props) in
    let dmdt := THREE.addVectors term1 term2 in
    let direction := THREE.addScaledVector (direction spin) dmdt dt in
    let direction := THREE.normalize direction in
    let q := setFromUnitVectors initialUpDirection direction in
    let matrix := compose (position spin) q scale in
    let spin := mkSpin (id spin) (position spin) direction matrix (neighbors spin) in
    {| m := m; H_eff := H_eff; H_ext := H_ext; H_exch := H_exch;
       term1 := term1; term2 := term2; dmdt := dmdt; q := q;
       headMeshRef := setMatrixAt (headMeshRef st) index matrix;
       shaftMeshRef := setMatrixAt (shaftMeshRef st) index matrix;
       mousePosRef := mousePosRef st;
       spinsRef := <[index := spin]> (spinsRef st);
       prevDirectionsRef := prevDirectionsRef st |}
  end.

(** The snapshot taken at the start of the step. *)
Definition takeSnapshot (st : State) : State :=
  let currentDirections := map direction (spinsRef st) in
  {| m := m st; H_eff := H_eff st; H_ext := H_ext st; H_exch := H_exch st;
     term1 := term1 st; term2 := term2 st; dmdt := dmdt st; q := q st;
     headMeshRef := headMeshRef st; shaftMeshRef := shaftMeshRef st;
     mousePosRef := mousePosRef st; spinsRef := spinsRef st;
     prevDirectionsRef := currentDirections |}.

(** The site loop, visiting the sites in the given order. *)
Definition stepSites (props : SpinGridProps) (dt : T) (order : list nat) (st : State) : State :=
  fold_left (stepSite props dt) order st.

(** [mousePosRef.current.copy(target)] when the ray meets the plane. *)
Definition movePointer (hit : option (Vector3 T)) (st : State) : State :=
  {| m := m st; H_eff := H_eff st; H_ext := H_ext st; H_exch := H_exch st;
     term1 := term1 st; term2 := term2 st; dmdt := dmdt st; q := q st;
     headMeshRef := headMeshRef st; shaftMeshRef := shaftMeshRef st;
     mousePosRef := match hit with Some target => target | None => mousePosRef st end;
     spinsRef := spinsRef st;
     prevDirectionsRef := prevDirectionsRef st |}.

Definition timeStep (props : SpinGridProps) (delta : T) : T :=
  min delta (ofZ 3 / ofZ 100) * timeStepScale props.

(** The callback, with the site loop visiting the indices in [order]; [hit]
    is the result of [raycaster.ray.intersectPlane(plane, target)]. *)
Definition useFrameIn (order : list nat) (props : SpinGridProps)
    (hit : option (Vector3 T)) (delta : T) (st : State) : State :=
  let dt := timeStep props delta in
  let st := movePointer hit st in
  match headMeshRef st, shaftMeshRef st, spinsRef st with
  | None, _, _ | _, None, _ | _, _, [] => st
  | Some _, Some _, _ :: _ =>
    let st := takeSnapshot st in
    stepSites props dt order st
  end.

(** [forEach] visits the indices in increasing order. *)
Definition useFrame (props : SpinGridProps) (hit : option (Vector3 T)) (delta : T)
    (st : State) : State :=
  useFrameIn (seq 0 (List.length (spinsRef st))) props hit delta st.

(** The state of a freshly mounted component with [count] instances per
    mesh, before any effect has run. *)
Definition mounted (blank : Matrix4) (count : nat) : State :=
  {| m := mkVector3 zero zero zero; H_eff := mkVector3 zero zero zero;
     H_ext := mkVector3 zero zero zero; H_exch := mkVector3 zero zero zero;
     term1 := mkVector3 zero zero zero; term2 := mkVector3 zero zero zero;
     dmdt := mkVector3 zero zero zero; q := identityQuaternion;
     headMeshRef := Some (replicate count blank);
     shaftMeshRef := Some (replicate count blank);
     mousePosRef := mkVector3 zero zero zero;
     spinsRef := [];
     prevDirectionsRef := [] |}.
End Component.

Arguments Spin T {_}.
Arguments State T {_}.
Arguments SpinGridProps : clear implicits.

(** ** What is stated about lattices and states *)

Section Properties.
Context {T : Type} `{Number T} `{Placement T}.
Local Open Scope num_scope.

(** The closed form of what the two loops of the builder push: the site
    record for the grid coordinates [(i, j)], and the rows in order
    ([buildSpins_lattice] below relates it to the loops). *)
Definition siteWith (gridSize : Z) (offset : T) (i j : Z) : Spin T :=
  let position := mkVector3 (ofZ i * SPACING - offset) (ofZ j * SPACING - offset) zero in
  let direction := mkVector3 zero zero one in
  mkSpin (string_of_Z i ++ "-" ++ string_of_Z j) position direction
         (compose position (setFromUnitVectors initialUpDirection direction) scale)
         (buildNeighbors gridSize i j).

Definition siteAt (gridSize : Z) : Z -> Z -> Spin T :=
  siteWith gridSize (ofZ (gridSize - 1) * SPACING / ofZ 2).

Definition lattice (gridSize : Z) : list (Spin T) :=
  mjoin ((fun i => siteAt gridSize i <$> range gridSize) <$> range gridSize).

(** *** The properties of a lattice of side [N] *)

Definition onBoundary (N k : Z) : bool := (k =? 0)%Z || (k =? N - 1)%Z.
Definition isCorner (N i j : Z) : bool := onBoundary N i && onBoundary N j.
Definition isEdge (N i j : Z) : bool := xorb (onBoundary N i) (onBoundary N j).
Definition isInterior (N i j : Z) : bool := negb (onBoundary N i) && negb (onBoundary N j).

Definition siteCount (N : Z) (spins : list (Spin T)) : Prop :=
  Z.of_nat (List.length spins) = (N * N)%Z.

Definition neighborCounts (N : Z) (spins : list (Spin T)) : Prop :=
  forall i j s, (0 <= i < N)%Z -> (0 <= j < N)%Z ->
    index spins (i * N + j) = Some s ->
    (isCorner N i j = true -> List.length (neighbors s) = 2%nat) /\
    (isEdge N i j = true -> List.length (neighbors s) = 3%nat) /\
    (isInterior N i j = true -> List.length (neighbors s) = 4%nat).

Definition neighborsSymmetric (spins : list (Spin T)) : Prop :=
  forall a b sa, index spins a = Some sa -> b ∈ neighbors sa ->
    exists sb, index spins b = Some sb /\ a ∈ neighbors sb.

Definition neighborsInBounds (N : Z) (spins : list (Spin T)) : Prop :=
  forall a b sa, index spins a = Some sa -> b ∈ neighbors sa -> (0 <= b < N * N)%Z.

Definition latticeAsSpecified (N : Z) (spins : list (Spin T)) : Prop :=
  siteCount N spins /\ neighborCounts N spins /\
  neighborsSymmetric spins /\ neighborsInBounds N spins.

(** Two states agree on everything but the helper vectors. *)
Definition sameOutput (s1 s2 : State T) : Prop :=
  spinsRef s1 = spinsRef s2 /\ headMeshRef s1 = headMeshRef s2 /\
  shaftMeshRef s1 = shaftMeshRef s2 /\ mousePosRef s1 = mousePosRef s2 /\
  prevDirectionsRef s1 = prevDirectionsRef s2.

(** The builder signals an invalid configuration. *)
Definition rejects (props : SpinGridProps T) (st : State T) : Prop :=
  exists e, buildLattice props st = Throw e.

End Properties.


(** The pointer position the frame works with. *)
Definition pointerAfter {T : Type} `{Number T} `{Placement T}
    (hit : option (Vector3 T)) (st : State T) : Vector3 T :=
  mousePosRef (movePointer hit st).

(** ** The update rule as the specification writes it *)

Module LLG.
Local Open Scope R_scope.

Definition vzero : Vector3 R := mkVector3 0 0 0.

Definition smul (k : R) (v : Vector3 R) : Vector3 R :=
  mkVector3 (k * vx v) (k * vy v) (k * vz v).

Definition vadd (a b : Vector3 R) : Vector3 R :=
  mkVector3 (vx a + vx b) (vy a + vy b) (vz a + vz b).

Definition vsub (a b : Vector3 R) : Vector3 R :=
  mkVector3 (vx a - vx b) (vy a - vy b) (vz a - vz b).

Definition cross (a b : Vector3 R) : Vector3 R :=
  mkVector3 (vy a * vz b - vz a * vy b)
            (vz a * vx b - vx a * vz b)
            (vx a * vy b - vy a * vx b).

Definition normSq (v : Vector3 R) : R := vx v ^ 2 + vy v ^ 2 + vz v ^ 2.

Definition norm (v : Vector3 R) : R := R_sqrt.sqrt (normSq v).

Definition normalized (v : Vector3 R) : Vector3 R := smul (/ norm v) v.

Definition vsum (vs : list (Vector3 R)) : Vector3 R := foldr vadd vzero vs.

Definition parallel (a b : Vector3 R) : Prop := exists k : R, b = smul k a.

(** The Integrator. *)
Definition m_new (gamma alpha : R) (m H_eff : Vector3 R) (dt : R) : Vector3 R :=
  let gamma_eff := gamma / (1 + alpha ^ 2) in
  let term1 := smul (- gamma_eff) (cross m H_eff) in
  let term2 := smul (- gamma_eff * alpha) (cross m (cross m H_eff)) in
  let dmdt := vadd term1 term2 in
  normalized (vadd m (smul dt dmdt)).

(** The external term of the Field Evaluator, without the polarity flag. *)
Definition externalTerm (externalFieldStrength : R) (site pointer : Vector3 R)
  : Vector3 R :=
  let offset := vsub site pointer in
  let d2 := normSq offset in
  let strength := externalFieldStrength / (1 + 5 * d2) in
  if Req_dec_T (norm offset) 0 then vzero else smul strength (normalized offset).

(** The sign is flipped when the field-polarity flag is set. *)
Definition signedExternalTerm (flag : bool) (externalFieldStrength : R)
    (site pointer : Vector3 R) : Vector3 R :=
  if flag then smul (-1) (externalTerm externalFieldStrength site pointer)
  else externalTerm externalFieldStrength site pointer.

(** The exchange term: the snapshot directions of the neighbours, summed and
    scaled. *)
Definition exchangeTerm (exchangeStrength : R) (snapshot : list (Vector3 R))
    (neighbors : list Z) : Vector3 R :=
  smul (exchangeStrength * 1000000) (vsum (omap (index snapshot) neighbors)).
End LLG.

(** ** Concrete inputs *)

Module Example.
(** The defaults of the props, on binary64. *)
Definition props (gridSize : Z) (isFieldInverted : bool) : SpinGridProps float :=
  mkProps gridSize isFieldInverted 5e5%float 0.3%float 1.5e-10%float 2e5%float 5e-10%float.

Definition blank : Matrix4 (T := float) :=
  (mkVector3 0 0 0, (mkVector3 0 0 1, mkVector3 0 0 1), mkVector3 1 1 1)%float.

Definition build (gridSize : Z) : State float :=
  let fresh := mounted blank (Z.to_nat (gridSize * gridSize)) in
  match buildLattice (props gridSize false) fresh with
  | Normal st => snapshotEffect st
  | Throw _ => fresh
  end.


(** One isolated site at [at_], pointing up, with the pointer at the origin. *)
Definition isolated (at_ : Vector3 R) : State R :=
  let origin : Vector3 R := mkVector3 0%R 0%R 0%R in
  let direction : Vector3 R := mkVector3 0%R 0%R 1%R in
  let matrix := compose at_ (setFromUnitVectors initialUpDirection direction) scale in
  {| m := origin; H_eff := origin; H_ext := origin; H_exch := origin;
     term1 := origin; term2 := origin; dmdt := origin;
     q := identityQuaternion;
     headMeshRef := Some [matrix]; shaftMeshRef := Some [matrix];
     mousePosRef := origin;
     spinsRef := [mkSpin "0-0" at_ direction matrix []];
     prevDirectionsRef := [direction] |}.

(** One site whose neighbour list names itself, an index past the end of
    the snapshot and a negative index. *)
Definition dangling : State float :=
  let up : Vector3 float := mkVector3 0%float 0%float 1%float in
  let origin : Vector3 float := mkVector3 0%float 0%float 0%float in
  {| m := origin; H_eff := origin; H_ext := origin; H_exch := origin;
     term1 := origin; term2 := origin; dmdt := origin;
     q := identityQuaternion;
     headMeshRef := Some [blank]; shaftMeshRef := Some [blank];
     mousePosRef := mkVector3 1%float 0%float 0%float;
     spinsRef := [mkSpin "0-0" origin up blank [0; 7; -1]%Z];
     prevDirectionsRef := [up] |}.

(** The defaults, with an external field strength near the top of the
    binary64 range. *)
Definition hugeField : SpinGridProps float :=
  mkProps 1 false 5e5%float 0.3%float 1.5e-10%float 1e308%float 5e-10%float.

Definition near (a b tol : float) : bool :=
  PrimFloat.ltb (PrimFloat.abs (PrimFloat.sub a b)) tol.

Definition propsR (isFieldInverted : bool) (externalFieldStrength : R) : SpinGridProps R :=
  mkProps 1 isFieldInverted 2%R 1%R 0%R externalFieldStrength 1%R.
End Example.

(** ** Successive frames and what they keep *)

Section Runs.
Context {T : Type} `{Number T} `{Placement T}.

(** What one call of the [useFrame] callback receives: the props of the
    render it belongs to, the result of the ray cast and the clock delta. *)
Record FrameInput := mkFrameInput {
  frameProps : SpinGridProps T;
  frameHit : option (Vector3 T);
  frameDelta : T
}.

(** The render loop calls the callback once per frame. *)
Definition runFrames (inputs : list FrameInput) (st : State T) : State T :=
  fold_left (fun st f => useFrame (frameProps f) (frameHit f) (frameDelta f) st) inputs st.

(** The fields of a site that only the builder writes. *)
Definition fixedPart (spin : Spin T) : string * Vector3 T * list Z :=
  (id spin, position spin, neighbors spin).

(** The matrix of a site is the one composed from its position and the
    rotation of [initialUpDirection] onto its direction. *)
Definition placed (spin : Spin T) : Prop :=
  matrix spin
  = compose (position spin) (setFromUnitVectors initialUpDirection (direction spin)) scale.

(** Site [i], if there is one, is placed, and each mounted instance buffer
    that reaches index [i] holds the matrix of the site there. *)
Definition mirrorAt (st : State T) (i : nat) : Prop :=
  forall spin, spinsRef st !! i = Some spin ->
    placed spin /\
    (forall buf mat, headMeshRef st = Some buf -> buf !! i = Some mat -> mat = matrix spin) /\
    (forall buf mat, shaftMeshRef st = Some buf -> buf !! i = Some mat -> mat = matrix spin).

Definition mirrored (st : State T) : Prop := forall i, mirrorAt st i.

(** Grid coordinates one step apart along one axis. *)
Definition adjacent (i j i' j' : Z) : Prop := (Z.abs (i - i') + Z.abs (j - j') = 1)%Z.
End Runs.

Arguments FrameInput : clear implicits.

(** ** The first version of the callback

    [src/unnamed/part_001] is the component before the parameters became
    props: the same two effects, and a [useFrame] callback that reads
    module constants and always negates the external field strength. *)

Module FirstVersion.
Section Callback.
Context {T : Type} `{Number T} `{Placement T}.
Local Open Scope num_scope.

Definition GAMMA : T := ofZ 221100.
Definition ALPHA : T := ofZ 1 / ofZ 2.
Definition EXCHANGE_STRENGTH : T := ofZ 1 / ofZ 100000000000.
Definition EXTERNAL_FIELD_STRENGTH : T := ofZ 5000000.
Definition TIME_STEP_SCALE : T := ofZ 2 / ofZ 10000000000.

Definition stepSite (dt : T) (st : State T) (index : nat) : State T :=
  match spinsRef st !! index with
  | None => st
  | Some spin =>
    let m := direction spin in
    let H_ext := THREE.subVectors (position spin) (mousePosRef st) in
    let distSq := THREE.lengthSq H_ext in
    let strength := EXTERNAL_FIELD_STRENGTH / (one + distSq * ofZ 5) in
    let H_ext := THREE.multiplyScalar (THREE.normalize H_ext) (- strength) in
    let H_exch := mkVector3 zero zero zero in
    let H_exch := exchangeLoop (prevDirectionsRef st) (neighbors spin) H_exch in
    let exchangeScaling := EXCHANGE_STRENGTH * ofZ 1000000 in
    let H_exch := THREE.multiplyScalar H_exch exchangeScaling in
    let H_eff := THREE.addVectors H_ext H_exch in
    let gamma_eff := GAMMA / (one + ALPHA * ALPHA) in
    let term1 := THREE.crossVectors m H_eff in
    let term2 := THREE.crossVectors m term1 in
    let term1 := THREE.multiplyScalar term1 (- gamma_eff) in
    let term2 := THREE.multiplyScalar term2 (- gamma_eff * ALPHA) in
    let dmdt := THREE.addVectors term1 term2 in
    let direction := THREE.addScaledVector (direction spin) dmdt dt in
    let direction := THREE.normalize direction in
    let q := setFromUnitVectors initialUpDirection direction in
    let matrix := compose (position spin) q scale in
    let spin := mkSpin (id spin) (position spin) direction matrix (neighbors spin) in
    {| m := m; H_eff := H_eff; H_ext := H_ext; H_exch := H_exch;
       term1 := term1; term2 := term2; dmdt := dmdt; q := q;
       headMeshRef := setMatrixAt (headMeshRef st) index matrix;
       shaftMeshRef := setMatrixAt (shaftMeshRef st) index matrix;
       mousePosRef := mousePosRef st;
       spinsRef := <[index := spin]> (spinsRef st);
       prevDirectionsRef := prevDirectionsRef st |}
  end.

Definition useFrame (hit : option (Vector3 T)) (delta : T) (st : State T) : State T :=
  let dt := min delta (ofZ 3 / ofZ 100) * TIME_STEP_SCALE in
  let st := movePointer hit st in
  match headMeshRef st, shaftMeshRef st, spinsRef st with
  | None, _, _ | _, None, _ | _, _, [] => st
  | Some _, Some _, _ :: _ =>
    let st := takeSnapshot st in
    fold_left (stepSite dt) (seq 0 (List.length (spinsRef st))) st
  end.

(** The props under which the later component computes what this one does. *)
Definition props (gridSize : Z) : SpinGridProps T :=
  mkProps gridSize true GAMMA ALPHA EXCHANGE_STRENGTH EXTERNAL_FIELD_STRENGTH TIME_STEP_SCALE.
End Callback.
End FirstVersion.

(** ** Exact arithmetic: what is stated about directions *)

Definition dot (a b : Vector3 R) : R := (vx a * vx b + vy a * vy b + vz a * vz b)%R.

Definition unitDirections `{Placement R} (st : State R) : Prop :=
  forall spin, spin ∈ spinsRef st -> THREE.length (direction spin) = 1%R.

Definition uniform `{Placement R} (u : Vector3 R) (st : State R) : Prop :=
  forall spin, spin ∈ spinsRef st -> direction spin = u.

(** Inputs in exact arithmetic. *)
Module ExampleR.
Definition blank : Matrix4 (T := R) := (LLG.vzero, (LLG.vzero, LLG.vzero), LLG.vzero).

(** Two sites side by side, each the neighbour of the other, both pointing
    up; the second site also names an index the lattice does not have. *)
Definition pair : State R :=
  let up : Vector3 R := mkVector3 0%R 0%R 1%R in
  {| m := LLG.vzero; H_eff := LLG.vzero; H_ext := LLG.vzero; H_exch := LLG.vzero;
     term1 := LLG.vzero; term2 := LLG.vzero; dmdt := LLG.vzero;
     q := identityQuaternion;
     headMeshRef := Some [blank; blank]; shaftMeshRef := Some [blank; blank];
     mousePosRef := mkVector3 3%R 4%R 0%R;
     spinsRef := [mkSpin "0-0" (mkVector3 0%R 0%R 0%R) up blank [1%Z];
                  mkSpin "0-1" (mkVector3 0%R 1%R 0%R) up blank [0%Z; 5%Z]];
     prevDirectionsRef := [] |}.

Definition props (externalFieldStrength : R) : SpinGridProps R :=
  mkProps 2 false 2%R 1%R 3%R externalFieldStrength 1%R.
End ExampleR.

(** ** Inputs on binary64 *)

Module Binary64.
(** One site with both meshes mounted. *)
Definition lone (position direction pointer : Vector3 float) (neighbors : list Z)
  : State float :=
  {| m := direction; H_eff := direction; H_ext := direction; H_exch := direction;
     term1 := direction; term2 := direction; dmdt := direction;
     q := identityQuaternion;
     headMeshRef := Some [Example.blank]; shaftMeshRef := Some [Example.blank];
     mousePosRef := pointer;
     spinsRef := [mkSpin "0-0" position direction Example.blank neighbors];
     prevDirectionsRef := [] |}.

Definition origin : Vector3 float := mkVector3 0%float 0%float 0%float.
Definition up : Vector3 float := mkVector3 0%float 0%float 1%float.

(** The direction normalize(0.3, 0.4, 0). *)
Definition slanted : Vector3 float :=
  THREE.normalize (mkVector3 0.3%float 0.4%float 0%float).

(** A site at the origin with direction [slanted] and the pointer behind it
    along that direction: the offset from the pointer is (0.3, 0.4, 0). *)
Definition aligned : State float :=
  lone origin slanted (mkVector3 (-0.3)%float (-0.4)%float 0%float) [].


(** A site at the origin pointing up, the pointer 1e-170 away from it. *)
Definition underPointer : State float :=
  lone origin up (mkVector3 1e-170%float 0%float 0%float) [].

End Binary64.

(** ** The update rule, evaluated in the arithmetic of the program *)

Module Rule.
Section Generic.
Context {T : Type} `{Number T}.
Local Open Scope num_scope.

(** [k . v] *)
Definition smul (k : T) (v : Vector3 T) : Vector3 T :=
  mkVector3 (k * vx v) (k * vy v) (k * vz v).

(** [v . k] *)
Definition times (v : Vector3 T) (k : T) : Vector3 T :=
  mkVector3 (vx v * k) (vy v * k) (vz v * k).

Definition plus (a b : Vector3 T) : Vector3 T :=
  mkVector3 (vx a + vx b) (vy a + vy b) (vz a + vz b).

Definition cross (a b : Vector3 T) : Vector3 T :=
  mkVector3 (vy a * vz b - vz a * vy b)
            (vz a * vx b - vx a * vz b)
            (vx a * vy b - vy a * vx b).

Definition m_new (gamma alpha : T) (m H_eff : Vector3 T) (dt : T) : Vector3 T :=
  let gamma_eff := gamma / (one + alpha * alpha) in
  let term1 := smul (- gamma_eff) (cross m H_eff) in
  let term2 := smul (- gamma_eff * alpha) (cross m (cross m H_eff)) in
  let dmdt := plus term1 term2 in
  THREE.normalize (plus m (times dmdt dt)).
End Generic.
End Rule.

(** ** The lattice the builder produces *)

Section Lattice.
Context {T : Type} `{Number T} `{Placement T}.
Local Open Scope num_scope.

Lemma inner_loop_spins gridSize (offset : T) i (js : list Z)
    (acc : list (Spin T) * Quaternion) :
  (fold_left (fun s j => buildSite gridSize offset i j s) js acc).1
  = acc.1 ++ (siteWith gridSize offset i <$> js).
Proof.
  revert acc. induction js as [|j js IH]; intros acc; simpl.
  - by rewrite app_nil_r.
  - rewrite IH. simpl. by rewrite <- app_assoc.
Qed.

Lemma outer_loop_spins gridSize (offset : T) (rows : list Z)
    (acc : list (Spin T) * Quaternion) :
  (fold_left (fun s i => forLoop gridSize (buildSite gridSize offset i) s) rows acc).1
  = acc.1 ++ mjoin ((fun i => siteWith gridSize offset i <$> range gridSize) <$> rows).
Proof.
  revert acc. induction rows as [|i rows IH]; intros acc; simpl.
  - by rewrite app_nil_r.
  - rewrite IH. unfold forLoop at 1. rewrite inner_loop_spins. by rewrite <- app_assoc.
Qed.

Lemma buildSpins_lattice gridSize (q0 : Quaternion) :
  (buildSpins gridSize q0).1 = lattice gridSize.
Proof. unfold buildSpins, forLoop at 1. by rewrite outer_loop_spins. Qed.

Lemma buildLattice_spins (props : SpinGridProps T) (st : State T) :
  exists st', buildLattice props st = Normal st' /\ spinsRef st' = lattice (gridSize props).
Proof.
  unfold buildLattice.
  pose proof (buildSpins_lattice (gridSize props) (q st)) as E.
  destruct (buildSpins (gridSize props) (q st)) as [spins q'].
  simpl in E. subst spins. eexists. split; [reflexivity|]. reflexivity.
Qed.

Lemma lattice_lookup_nat gridSize (a : nat) (s : Spin T) :
  lattice gridSize !! a = Some s <->
  exists i j : nat, (Z.of_nat i < gridSize)%Z /\ (Z.of_nat j < gridSize)%Z /\
    a = (i * Z.to_nat gridSize + j)%nat /\ s = siteAt gridSize (Z.of_nat i) (Z.of_nat j).
Proof.
  unfold lattice, range.
  rewrite (join_lookup_Some_same_length (Z.to_nat gridSize)).
  2:{ apply Forall_fmap, Forall_forall. intros i _. simpl.
      by rewrite length_fmap, length_seqZ. }
  split.
  - intros (i & l & j & Hrow & Hcol & ->).
    rewrite list_lookup_fmap in Hrow.
    destruct (seqZ 0 gridSize !! i) as [zi|] eqn:Ei; [|done].
    simpl in Hrow. injection Hrow as <-.
    rewrite list_lookup_fmap in Hcol.
    destruct (seqZ 0 gridSize !! j) as [zj|] eqn:Ej; [|done].
    simpl in Hcol. injection Hcol as <-.
    apply lookup_seqZ in Ei as [-> ?]. apply lookup_seqZ in Ej as [-> ?].
    exists i, j. by rewrite !Z.add_0_l.
  - intros (i & j & Hi & Hj & -> & ->).
    exists i, (siteAt gridSize (Z.of_nat i) <$> seqZ 0 gridSize), j.
    rewrite !list_lookup_fmap, !lookup_seqZ_lt by done.
    by rewrite !Z.add_0_l.
Qed.

Lemma lattice_lookup gridSize (i j : Z) :
  (0 <= i < gridSize)%Z -> (0 <= j < gridSize)%Z ->
  index (lattice gridSize) (i * gridSize + j) = Some (siteAt gridSize i j).
Proof.
  intros Hi Hj. unfold index.
  destruct (Z.ltb_spec (i * gridSize + j) 0) as [Hneg|_]; [nia|].
  apply lattice_lookup_nat. exists (Z.to_nat i), (Z.to_nat j).
  rewrite !Z2Nat.id by lia. split; [lia|]. split; [lia|]. split; [|done].
  rewrite Z2Nat.inj_add, Z2Nat.inj_mul by nia. done.
Qed.

Lemma lattice_lookup_inv gridSize (a : Z) (s : Spin T) :
  index (lattice gridSize) a = Some s ->
  exists i j : Z, (0 <= i < gridSize)%Z /\ (0 <= j < gridSize)%Z /\
    a = (i * gridSize + j)%Z /\ s = siteAt gridSize i j.
Proof.
  unfold index. destruct (Z.ltb_spec a 0) as [|Ha]; [done|].
  intros (i & j & Hi & Hj & Ea & ->)%lattice_lookup_nat.
  exists (Z.of_nat i), (Z.of_nat j). split; [lia|]. split; [lia|]. split; [|done].
  apply (f_equal Z.of_nat) in Ea. rewrite Z2Nat.id in Ea by done.
  rewrite Ea, Nat2Z.inj_add, Nat2Z.inj_mul, Z2Nat.id by lia. done.
Qed.

Lemma lattice_length gridSize :
  List.length (lattice gridSize) = (Z.to_nat gridSize * Z.to_nat gridSize)%nat.
Proof.
  unfold lattice, range. rewrite length_join.
  rewrite (sum_list_fmap_same (Z.to_nat gridSize)).
  - by rewrite length_fmap, length_seqZ.
  - apply Forall_fmap, Forall_forall. intros i _. simpl.
    by rewrite length_fmap, length_seqZ.
Qed.

Lemma elem_of_buildNeighbors gridSize i j (b : Z) :
  b ∈ buildNeighbors gridSize i j <->
  ((0 < i)%Z /\ b = ((i - 1) * gridSize + j)%Z) \/
  ((i < gridSize - 1)%Z /\ b = ((i + 1) * gridSize + j)%Z) \/
  ((0 < j)%Z /\ b = (i * gridSize + (j - 1))%Z) \/
  ((j < gridSize - 1)%Z /\ b = (i * gridSize + (j + 1))%Z).
Proof.
  unfold buildNeighbors.
  destruct (Z.ltb_spec 0 i), (Z.ltb_spec i (gridSize - 1)),
    (Z.ltb_spec 0 j), (Z.ltb_spec j (gridSize - 1)); simpl;
    rewrite ?elem_of_cons, ?elem_of_nil; intuition lia.
Qed.

Lemma lattice_siteCount N : (0 <= N)%Z -> siteCount N (lattice N).
Proof. intros. unfold siteCount. rewrite lattice_length. lia. Qed.

Lemma lattice_neighborCounts N : (2 <= N)%Z -> neighborCounts N (lattice N).
Proof.
  intros HN i j s Hi Hj Hs. rewrite lattice_lookup in Hs by done.
  injection Hs as <-. simpl.
  unfold isCorner, isEdge, isInterior, onBoundary, buildNeighbors.
  destruct (Z.eqb_spec i 0), (Z.eqb_spec i (N - 1)),
    (Z.eqb_spec j 0), (Z.eqb_spec j (N - 1)),
    (Z.ltb_spec 0 i), (Z.ltb_spec i (N - 1)),
    (Z.ltb_spec 0 j), (Z.ltb_spec j (N - 1)); simpl;
    try lia; repeat split; intros; done.
Qed.

Lemma lattice_neighborsInBounds N : neighborsInBounds N (lattice N).
Proof.
  intros a b sa (i & j & Hi & Hj & -> & ->)%lattice_lookup_inv Hb. simpl in Hb.
  apply elem_of_buildNeighbors in Hb. nia.
Qed.

Lemma lattice_neighborsSymmetric N : neighborsSymmetric (lattice N).
Proof.
  intros a b sa (i & j & Hi & Hj & -> & ->)%lattice_lookup_inv Hb. simpl in Hb.
  apply elem_of_buildNeighbors in Hb.
  destruct Hb as [[? ->]|[[? ->]|[[? ->]|[? ->]]]].
  - exists (siteAt N (i - 1) j). split; [apply lattice_lookup; lia|].
    simpl. apply elem_of_buildNeighbors. right; left. split; [lia|]. f_equal. f_equal. lia.
  - exists (siteAt N (i + 1) j). split; [apply lattice_lookup; lia|].
    simpl. apply elem_of_buildNeighbors. left. split; [lia|]. f_equal. f_equal. lia.
  - exists (siteAt N i (j - 1)). split; [apply lattice_lookup; lia|].
    simpl. apply elem_of_buildNeighbors. right; right; right. split; [lia|]. f_equal. lia.
  - exists (siteAt N i (j + 1)). split; [apply lattice_lookup; lia|].
    simpl. apply elem_of_buildNeighbors. right; right; left. split; [lia|]. f_equal. lia.
Qed.

Lemma lattice_single_site (s : Spin T) : s ∈ lattice 1 -> neighbors s = [].
Proof.
  intros [a Ha]%list_elem_of_lookup.
  apply lattice_lookup_nat in Ha as (i & j & Hi & Hj & _ & ->). simpl.
  unfold buildNeighbors.
  destruct (Z.ltb_spec 0 (Z.of_nat i)), (Z.ltb_spec (Z.of_nat i) (1 - 1)),
    (Z.ltb_spec 0 (Z.of_nat j)), (Z.ltb_spec (Z.of_nat j) (1 - 1)); simpl; try lia; done.
Qed.

Lemma lattice_nonpositive N : (N <= 0)%Z -> lattice N = [].
Proof. intros. unfold lattice, range. by rewrite seqZ_nil. Qed.

Lemma uploadAll_nil (mesh : option (list Matrix4)) : uploadAll [] mesh = mesh.
Proof. reflexivity. Qed.
End Lattice.

(** ** The site loop *)

Section SiteLoop.
Context {T : Type} `{Number T} `{Placement T}.

Lemma sameOutput_refl s : sameOutput s s.
Proof. by repeat split. Qed.

Lemma sameOutput_trans s1 s2 s3 : sameOutput s1 s2 -> sameOutput s2 s3 -> sameOutput s1 s3.
Proof.
  intros (?&?&?&?&?) (?&?&?&?&?). repeat split; etrans; eassumption.
Qed.

Lemma stepSite_sameOutput props dt (s1 s2 : State T) i :
  sameOutput s1 s2 -> sameOutput (stepSite props dt s1 i) (stepSite props dt s2 i).
Proof.
  intros (Hs & Hh & Hsh & Hm & Hp). unfold stepSite.
  rewrite Hs. destruct (spinsRef s2 !! i) as [spin|]; [|by repeat split].
  rewrite Hh, Hsh, Hm, Hp. by repeat split.
Qed.

Lemma stepSites_sameOutput props dt order (s1 s2 : State T) :
  sameOutput s1 s2 ->
  sameOutput (stepSites props dt order s1) (stepSites props dt order s2).
Proof.
  revert s1 s2. induction order as [|i order IH]; intros s1 s2 Hs; [done|].
  simpl. apply IH. by apply stepSite_sameOutput.
Qed.

Lemma setMatrixAt_commute (mesh : option (list Matrix4)) i j (a b : Matrix4) :
  i <> j ->
  setMatrixAt (setMatrixAt mesh i a) j b = setMatrixAt (setMatrixAt mesh j b) i a.
Proof.
  intros. destruct mesh as [buf|]; [|done]. simpl. f_equal.
  by apply list_insert_insert_ne.
Qed.

(** The callbacks of two different sites commute. *)
Lemma stepSite_commute props dt (st : State T) i j :
  i <> j ->
  sameOutput (stepSite props dt (stepSite props dt st i) j)
             (stepSite props dt (stepSite props dt st j) i).
Proof.
  intros Hij. unfold stepSite.
  destruct (spinsRef st !! i) as [si|] eqn:Ei, (spinsRef st !! j) as [sj|] eqn:Ej;
    simpl; rewrite ?list_lookup_insert_ne, ?Ei, ?Ej by done; simpl;
    try by repeat split.
  repeat split; simpl.
  - by apply list_insert_insert_ne.
  - by apply setMatrixAt_commute.
  - by apply setMatrixAt_commute.
Qed.

Lemma stepSites_permutation props dt order1 order2 (s1 s2 : State T) :
  order1 ≡ₚ order2 -> sameOutput s1 s2 ->
  sameOutput (stepSites props dt order1 s1) (stepSites props dt order2 s2).
Proof.
  intros Hperm. revert s1 s2.
  induction Hperm as [|i l l' _ IH|i j l|l l' l'' _ IH1 _ IH2]; intros s1 s2 Hs.
  - done.
  - simpl. apply IH. by apply stepSite_sameOutput.
  - simpl. apply stepSites_sameOutput.
    destruct (decide (i = j)) as [->|Hne].
    + by do 2 apply stepSite_sameOutput.
    + eapply sameOutput_trans; [apply stepSite_commute; done|].
      by do 2 apply stepSite_sameOutput.
  - eapply sameOutput_trans; [apply IH1, Hs|]. apply IH2, sameOutput_refl.
Qed.

(** What a callback leaves alone. *)
Lemma stepSite_frame props dt (st : State T) j :
  mousePosRef (stepSite props dt st j) = mousePosRef st /\
  prevDirectionsRef (stepSite props dt st j) = prevDirectionsRef st /\
  forall i, i <> j -> spinsRef (stepSite props dt st j) !! i = spinsRef st !! i.
Proof.
  unfold stepSite. destruct (spinsRef st !! j) as [sj|]; simpl; [|done].
  repeat split. intros i Hij. by rewrite list_lookup_insert_ne.
Qed.

Lemma stepSites_frame props dt order (st : State T) :
  mousePosRef (stepSites props dt order st) = mousePosRef st /\
  prevDirectionsRef (stepSites props dt order st) = prevDirectionsRef st /\
  forall i, i ∉ order -> spinsRef (stepSites props dt order st) !! i = spinsRef st !! i.
Proof.
  revert st. induction order as [|j order IH]; intros st; [done|]. simpl.
  destruct (IH (stepSite props dt st j)) as (-> & -> & Hs).
  destruct (stepSite_frame props dt st j) as (-> & -> & Hj).
  repeat split. intros i [Hij Hi]%not_elem_of_cons.
  rewrite Hs by done. by apply Hj.
Qed.

(** What the callback of site [i] writes for that site depends only on the
    site's own record, the pointer position and the snapshot. *)
Lemma stepSite_local props dt (s1 s2 : State T) i :
  spinsRef s1 !! i = spinsRef s2 !! i ->
  mousePosRef s1 = mousePosRef s2 ->
  prevDirectionsRef s1 = prevDirectionsRef s2 ->
  spinsRef (stepSite props dt s1 i) !! i = spinsRef (stepSite props dt s2 i) !! i.
Proof.
  intros Hs Hm Hp. unfold stepSite. rewrite <- Hs.
  destruct (spinsRef s1 !! i) as [spin|] eqn:E; [|by rewrite E, Hs].
  simpl. rewrite !list_lookup_insert_eq.
  - by rewrite Hm, Hp.
  - apply lookup_lt_is_Some. rewrite <- Hs. eauto.
  - apply lookup_lt_is_Some. eauto.
Qed.

Lemma stepSites_lookup props dt order (st : State T) i :
  NoDup order -> i ∈ order ->
  spinsRef (stepSites props dt order st) !! i = spinsRef (stepSite props dt st i) !! i.
Proof.
  revert st. induction order as [|j order IH]; intros st Hnd Hi.
  { by apply elem_of_nil in Hi. }
  apply NoDup_cons in Hnd as [Hj Hnd]. simpl.
  destruct (decide (i = j)) as [->|Hij].
  - by apply stepSites_frame.
  - apply elem_of_cons in Hi as [?|Hi]; [done|].
    rewrite IH by done.
    destruct (stepSite_frame props dt st j) as (Hm & Hp & Hs).
    apply stepSite_local; auto.
Qed.

Lemma useFrame_site props hit delta (st : State T) i spin h sh :
  headMeshRef st = Some h -> shaftMeshRef st = Some sh ->
  spinsRef st !! i = Some spin ->
  spinsRef (useFrame props hit delta st) !! i
  = spinsRef (stepSite props (timeStep props delta) (takeSnapshot (movePointer hit st)) i) !! i.
Proof.
  intros Hh Hsh Hi. unfold useFrame, useFrameIn. simpl. rewrite Hh, Hsh.
  destruct (spinsRef st) as [|s0 spins] eqn:E; [done|]. rewrite <- E in *.
  apply stepSites_lookup; [apply NoDup_seq|].
  apply elem_of_seq. apply lookup_lt_Some in Hi. lia.
Qed.

(** What the callback stores for a site. *)
Lemma stepSite_lookup props dt (st : State T) i spin :
  spinsRef st !! i = Some spin ->
  spinsRef (stepSite props dt st i) !! i
  = Some (mkSpin (id spin) (position spin)
            (THREE.normalize (THREE.addScaledVector (direction spin)
                                (dmdt (stepSite props dt st i)) dt))
            (compose (position spin) (q (stepSite props dt st i)) scale)
            (neighbors spin)).
Proof.
  intros Hi. unfold stepSite. rewrite Hi. simpl.
  rewrite list_lookup_insert_eq; [done|]. by apply lookup_lt_Some in Hi.
Qed.

Lemma stepSite_new_direction props dt (st : State T) i spin :
  spinsRef st !! i = Some spin ->
  direction <$> spinsRef (stepSite props dt st i) !! i
  = Some (THREE.normalize (THREE.addScaledVector (direction spin)
                             (dmdt (stepSite props dt st i)) dt)).
Proof. intros Hi. by rewrite (stepSite_lookup _ _ _ _ _ Hi). Qed.

(** What the callback leaves in the helper vectors. *)
Lemma stepSite_H_ext props dt (st : State T) i spin :
  spinsRef st !! i = Some spin ->
  H_ext (stepSite props dt st i)
  = let offset := THREE.subVectors (position spin) (mousePosRef st) in
    let strength := div (externalFieldStrength props)
                        (add one (mul (THREE.lengthSq offset) (ofZ 5))) in
    THREE.multiplyScalar (THREE.normalize offset)
      (if isFieldInverted props then mul strength (neg one) else strength).
Proof. intros Hi. unfold stepSite. by rewrite Hi. Qed.

Lemma stepSite_H_exch props dt (st : State T) i spin :
  spinsRef st !! i = Some spin ->
  H_exch (stepSite props dt st i)
  = THREE.multiplyScalar
      (exchangeLoop (prevDirectionsRef st) (neighbors spin) (mkVector3 zero zero zero))
      (mul (exchangeStrength props) (ofZ 1000000)).
Proof. intros Hi. unfold stepSite. by rewrite Hi. Qed.

Lemma stepSite_H_eff props dt (st : State T) i spin :
  spinsRef st !! i = Some spin ->
  H_eff (stepSite props dt st i)
  = THREE.addVectors (H_ext (stepSite props dt st i)) (H_exch (stepSite props dt st i)).
Proof. intros Hi. unfold stepSite. by rewrite Hi. Qed.

Lemma stepSite_dmdt props dt (st : State T) i spin :
  spinsRef st !! i = Some spin ->
  dmdt (stepSite props dt st i)
  = let gamma_eff := div (gamma props) (add one (mul (alpha props) (alpha props))) in
    let cross1 := THREE.crossVectors (direction spin) (H_eff (stepSite props dt st i)) in
    let cross2 := THREE.crossVectors (direction spin) cross1 in
    THREE.addVectors (THREE.multiplyScalar cross1 (neg gamma_eff))
                     (THREE.multiplyScalar cross2 (mul (neg gamma_eff) (alpha props))).
Proof. intros Hi. unfold stepSite. by rewrite Hi. Qed.


(** A neighbour index without a snapshot entry is skipped. *)
Lemma exchangeLoop_entries (prev : list (Vector3 T)) neighbors acc :
  exchangeLoop prev neighbors acc
  = fold_left THREE.add_ (omap (index prev) neighbors) acc.
Proof.
  unfold exchangeLoop. revert acc.
  induction neighbors as [|k ns IH]; intros acc; [done|]. simpl.
  destruct (index prev k) as [d|]; simpl; apply IH.
Qed.

Lemma index_None {A} (arr : list A) (k : Z) :
  index arr k = None <-> (k < 0 \/ Z.of_nat (List.length arr) <= k)%Z.
Proof.
  unfold index. destruct (Z.ltb_spec k 0) as [|Hk].
  - split; [by left|done].
  - rewrite lookup_ge_None. lia.
Qed.
End SiteLoop.

(** ** Exact arithmetic: vector algebra *)

Section ExactVectors.
Local Open Scope R_scope.

Lemma vector3_eq (a b : Vector3 R) :
  vx a = vx b -> vy a = vy b -> vz a = vz b -> a = b.
Proof. destruct a, b. simpl. by intros -> -> ->. Qed.

Lemma lengthSq_normSq (v : Vector3 R) : THREE.lengthSq v = LLG.normSq v.
Proof. unfold THREE.lengthSq, LLG.normSq. simpl. ring. Qed.

Lemma length_norm (v : Vector3 R) : THREE.length v = LLG.norm v.
Proof. unfold THREE.length, LLG.norm. by rewrite lengthSq_normSq. Qed.

Lemma normSq_nonneg (v : Vector3 R) : 0 <= LLG.normSq v.
Proof. unfold LLG.normSq. nra. Qed.

Lemma normSq_zero (v : Vector3 R) : LLG.normSq v = 0 -> v = LLG.vzero.
Proof.
  unfold LLG.normSq. intros E. apply vector3_eq; simpl; nra.
Qed.

Lemma normSq_pos (v : Vector3 R) : v <> LLG.vzero -> 0 < LLG.normSq v.
Proof.
  intros Hv. destruct (Rle_lt_or_eq_dec _ _ (normSq_nonneg v)) as [|E]; [done|].
  symmetry in E. by apply normSq_zero in E.
Qed.

Lemma norm_pos (v : Vector3 R) : v <> LLG.vzero -> 0 < LLG.norm v.
Proof. intros. apply sqrt_lt_R0. by apply normSq_pos. Qed.

Lemma norm_sq (v : Vector3 R) : LLG.norm v * LLG.norm v = LLG.normSq v.
Proof. apply sqrt_sqrt, normSq_nonneg. Qed.

Lemma norm_zero (v : Vector3 R) : LLG.norm v = 0 -> v = LLG.vzero.
Proof.
  intros E. apply normSq_zero. rewrite <- norm_sq, E. ring.
Qed.

Lemma norm_vzero : LLG.norm LLG.vzero = 0.
Proof.
  unfold LLG.norm, LLG.normSq, LLG.vzero. cbn [THREE.vx THREE.vy THREE.vz].
  replace (0 ^ 2 + 0 ^ 2 + 0 ^ 2) with 0 by ring. apply sqrt_0.
Qed.

Lemma norm_one_nonzero (v : Vector3 R) : LLG.norm v = 1 -> v <> LLG.vzero.
Proof. intros E ->. rewrite norm_vzero in E. lra. Qed.

Lemma truthy_nonzero (r : R) : r <> 0 -> truthy r = true.
Proof. intros. simpl. by destruct (Req_dec_T r 0). Qed.

Lemma truthy_zero : truthy 0 = false.
Proof. simpl. by destruct (Req_dec_T 0 0). Qed.

(** [normalize] away from the zero vector is the unit vector. *)
Lemma normalize_normalized (v : Vector3 R) :
  v <> LLG.vzero -> THREE.normalize v = LLG.normalized v.
Proof.
  intros Hv. pose proof (norm_pos v Hv) as Hpos.
  unfold THREE.normalize, THREE.divideScalar, THREE.multiplyScalar, LLG.normalized, LLG.smul.
  rewrite length_norm, truthy_nonzero by lra.
  apply vector3_eq; simpl; field; lra.
Qed.

Lemma normalize_vzero : THREE.normalize LLG.vzero = LLG.vzero.
Proof.
  unfold THREE.normalize. rewrite length_norm, norm_vzero, truthy_zero.
  unfold THREE.divideScalar, THREE.multiplyScalar, LLG.vzero.
  apply vector3_eq; simpl; field.
Qed.

Lemma norm_normalized (v : Vector3 R) : v <> LLG.vzero -> LLG.norm (LLG.normalized v) = 1.
Proof.
  intros Hv. pose proof (norm_pos v Hv) as Hpos. pose proof (norm_sq v) as Hsq.
  unfold LLG.norm at 1.
  replace (LLG.normSq (LLG.normalized v)) with 1; [apply sqrt_1|].
  unfold LLG.normalized, LLG.smul, LLG.normSq at 1. simpl.
  unfold LLG.normSq in Hsq.
  transitivity ((vx v ^ 2 + vy v ^ 2 + vz v ^ 2) / (LLG.norm v * LLG.norm v)).
  - rewrite Hsq. field. unfold LLG.normSq in *. nra.
  - field. lra.
Qed.

Lemma normalized_unit (v : Vector3 R) : LLG.norm v = 1 -> LLG.normalized v = v.
Proof.
  intros E. unfold LLG.normalized, LLG.smul. rewrite E.
  apply vector3_eq; simpl; field.
Qed.
End ExactVectors.

(** ** Exact arithmetic: the callback against the specification's rule *)

Section Exact.
Context `{Placement R}.
Local Open Scope R_scope.

Lemma subVectors_vsub (a b : Vector3 R) : THREE.subVectors a b = LLG.vsub a b.
Proof. reflexivity. Qed.

Lemma addVectors_vadd (a b : Vector3 R) : THREE.addVectors a b = LLG.vadd a b.
Proof. reflexivity. Qed.


Lemma multiplyScalar_smul (v : Vector3 R) (k : R) : THREE.multiplyScalar v k = LLG.smul k v.
Proof. apply vector3_eq; simpl; ring. Qed.

Lemma addScaledVector_vadd (a d : Vector3 R) (dt : R) :
  THREE.addScaledVector a d dt = LLG.vadd a (LLG.smul dt d).
Proof. apply vector3_eq; simpl; ring. Qed.

Lemma exchangeLoop_vsum (prev : list (Vector3 R)) neighbors acc :
  exchangeLoop prev neighbors acc = LLG.vadd acc (LLG.vsum (omap (index prev) neighbors)).
Proof.
  rewrite exchangeLoop_entries. generalize (omap (index prev) neighbors) as ds.
  intros ds. revert acc. induction ds as [|d ds IH]; intros acc; simpl.
  - apply vector3_eq; simpl; ring.
  - rewrite IH. apply vector3_eq; simpl; ring.
Qed.

(** The external term the callback computes. *)
Lemma H_ext_signedExternalTerm props dt (st : State R) i spin :
  spinsRef st !! i = Some spin ->
  H_ext (stepSite props dt st i)
  = LLG.signedExternalTerm (isFieldInverted props) (externalFieldStrength props)
      (position spin) (mousePosRef st).
Proof.
  intros Hi. rewrite (stepSite_H_ext _ _ _ _ _ Hi). cbv zeta.
  rewrite subVectors_vsub, lengthSq_normSq.
  unfold LLG.signedExternalTerm, LLG.externalTerm.
  set (offset := LLG.vsub (position spin) (mousePosRef st)).
  pose proof (normSq_nonneg offset) as Hd.
  destruct (Req_dec_T (LLG.norm offset) 0) as [E|Hne].
  - apply norm_zero in E. rewrite E, normalize_vzero.
    destruct (isFieldInverted props); apply vector3_eq; simpl; ring.
  - assert (offset <> LLG.vzero) as Hv by (intros E; apply Hne; rewrite E; apply norm_vzero).
    rewrite normalize_normalized by done.
    destruct (isFieldInverted props); apply vector3_eq; simpl; field; lra.
Qed.

Lemma H_exch_exchangeTerm props dt (st : State R) i spin :
  spinsRef st !! i = Some spin ->
  H_exch (stepSite props dt st i)
  = LLG.exchangeTerm (exchangeStrength props) (prevDirectionsRef st) (neighbors spin).
Proof.
  intros Hi. rewrite (stepSite_H_exch _ _ _ _ _ Hi), exchangeLoop_vsum.
  unfold LLG.exchangeTerm. apply vector3_eq; simpl; ring.
Qed.

Lemma dmdt_rule props dt (st : State R) i spin :
  spinsRef st !! i = Some spin ->
  dmdt (stepSite props dt st i)
  = let gamma_eff := gamma props / (1 + alpha props ^ 2) in
    let H := H_eff (stepSite props dt st i) in
    LLG.vadd (LLG.smul (- gamma_eff) (LLG.cross (direction spin) H))
             (LLG.smul (- gamma_eff * alpha props)
                       (LLG.cross (direction spin) (LLG.cross (direction spin) H))).
Proof.
  intros Hi. rewrite (stepSite_dmdt _ _ _ _ _ Hi). cbv zeta.
  assert (1 + alpha props ^ 2 <> 0) by nra.
  apply vector3_eq; simpl; field; nra.
Qed.

(** The Euler step leaves a non-zero vector non-zero: the increment is
    orthogonal to the direction. *)
Lemma euler_step_nonzero (a b dt : R) (m X Y : Vector3 R) :
  m <> LLG.vzero ->
  LLG.vadd m (LLG.smul dt (LLG.vadd (LLG.smul a (LLG.cross m X))
                                    (LLG.smul b (LLG.cross m Y)))) <> LLG.vzero.
Proof.
  intros Hm E. apply normSq_pos in Hm.
  apply (f_equal LLG.normSq) in E.
  set (d := LLG.vadd (LLG.smul a (LLG.cross m X)) (LLG.smul b (LLG.cross m Y))) in *.
  assert (LLG.normSq (LLG.vadd m (LLG.smul dt d))
          = LLG.normSq m + dt ^ 2 * LLG.normSq d) as Hsplit.
  { unfold d, LLG.normSq. simpl. ring. }
  rewrite Hsplit in E. pose proof (normSq_nonneg d).
  replace (LLG.normSq LLG.vzero) with 0 in E by (unfold LLG.normSq; simpl; ring).
  nra.
Qed.

(** The direction the callback stores, against the Integrator's rule. *)
Lemma stepSite_direction props dt (st : State R) i spin :
  spinsRef st !! i = Some spin ->
  direction spin <> LLG.vzero ->
  direction <$> spinsRef (stepSite props dt st i) !! i
  = Some (LLG.m_new (gamma props) (alpha props) (direction spin)
            (H_eff (stepSite props dt st i)) dt).
Proof.
  intros Hi Hm. rewrite (stepSite_lookup _ _ _ _ _ Hi). simpl. f_equal.
  rewrite addScaledVector_vadd, (dmdt_rule _ _ _ _ _ Hi). cbv zeta.
  rewrite normalize_normalized by (by apply euler_step_nonzero).
  reflexivity.
Qed.
End Exact.

(** ** Lattice Builder *)

Section LatticeBuilder.
Context {T : Type} `{Number T} `{Placement T}.

(** C5, amended: for every gridSize N >= 1 the Lattice Builder produces
    exactly N^2 sites, every neighbour index is in [0, N^2) and the
    neighbour relation is symmetric; for N >= 2 corner sites have exactly 2
    neighbours, non-corner edge sites exactly 3 and interior sites exactly
    4, while for N = 1 the single site, a corner, has none. *)
Theorem lattice_topology (props : SpinGridProps T) (st : State T) :
  (1 <= gridSize props)%Z ->
  exists st', buildLattice props st = Normal st' /\
    siteCount (gridSize props) (spinsRef st') /\
    neighborsSymmetric (spinsRef st') /\
    neighborsInBounds (gridSize props) (spinsRef st') /\
    ((2 <= gridSize props)%Z -> neighborCounts (gridSize props) (spinsRef st')) /\
    (gridSize props = 1%Z -> forall s, s ∈ spinsRef st' -> neighbors s = []).
Proof.
  intros HN. destruct (buildLattice_spins props st) as (st' & Hb & Hs).
  exists st'. split; [done|]. rewrite Hs. split; [apply lattice_siteCount; lia|].
  split; [apply lattice_neighborsSymmetric|].
  split; [apply lattice_neighborsInBounds|].
  split; [apply lattice_neighborCounts|].
  intros E s. rewrite E. apply lattice_single_site.
Qed.

(** C6: for every grid size S >= 1 the Lattice Builder places the site of
    grid coordinates (row, col) at index row*S + col, at the position
    (row*SPACING - offset, col*SPACING - offset, 0) with
    offset = (S-1)*SPACING/2, and every site starts with direction (0,0,1). *)
Theorem lattice_placement (props : SpinGridProps T) (st : State T) (row col : Z) :
  (1 <= gridSize props)%Z ->
  (0 <= row < gridSize props)%Z -> (0 <= col < gridSize props)%Z ->
  let S := gridSize props in
  let offset := div (mul (ofZ (S - 1)) SPACING) (ofZ 2) in
  exists st' s, buildLattice props st = Normal st' /\
    index (spinsRef st') (row * S + col) = Some s /\
    position s = mkVector3 (sub (mul (ofZ row) SPACING) offset)
                           (sub (mul (ofZ col) SPACING) offset) zero /\
    direction s = mkVector3 zero zero one /\
    (forall s', s' ∈ spinsRef st' -> direction s' = mkVector3 zero zero one).
Proof.
  intros HS Hrow Hcol S offset.
  destruct (buildLattice_spins props st) as (st' & Hb & Hs).
  exists st', (siteAt S row col). split; [done|]. rewrite Hs.
  split; [by apply lattice_lookup|]. split; [done|]. split; [done|].
  intros s' [a Ha]%list_elem_of_lookup.
  by apply lattice_lookup_nat in Ha as (i & j & _ & _ & _ & ->).
Qed.

(** C9, amended: for every gridSize <= 0, in particular every negative one,
    the Lattice Builder signals nothing: it completes normally with the
    empty lattice and leaves the instance buffers as they were. *)
Theorem lattice_nonpositive_size (props : SpinGridProps T) (st : State T) :
  (gridSize props <= 0)%Z ->
  ~ rejects props st /\
  exists st', buildLattice props st = Normal st' /\ spinsRef st' = [] /\
    headMeshRef st' = headMeshRef st /\ shaftMeshRef st' = shaftMeshRef st.
Proof.
  intros HN. split.
  { intros [e He]. destruct (buildLattice_spins props st) as (st' & Hb & _). congruence. }
  unfold buildLattice.
  pose proof (buildSpins_lattice (gridSize props) (q st)) as E.
  destruct (buildSpins (gridSize props) (q st)) as [spins q'].
  simpl in E. subst spins. rewrite lattice_nonpositive by done.
  eexists. split; [reflexivity|]. simpl. split; [done|].
  by destruct (headMeshRef st), (shaftMeshRef st).
Qed.
End LatticeBuilder.

(** With gridSize 2 every site is a corner with two neighbours. *)
Lemma lattice_topology_witness :
  exists st', buildLattice (Example.props 2 false) (mounted Example.blank 4) = Normal st' /\
    siteCount 2 (spinsRef st') /\
    neighborsSymmetric (spinsRef st') /\
    neighborsInBounds 2 (spinsRef st') /\
    ((2 <= 2)%Z -> neighborCounts 2 (spinsRef st')) /\
    (2%Z = 1%Z -> forall s, s ∈ spinsRef st' -> neighbors s = []).
Proof.
  apply (lattice_topology (Example.props 2 false) (mounted Example.blank 4)).
  simpl. lia.
Defined.

(** C5 as stated fails at N = 1: the only site is a corner and has no
    neighbour. *)
Lemma lattice_topology_counterexample :
  exists st', buildLattice (Example.props 1 false) (mounted Example.blank 1) = Normal st' /\
    ~ latticeAsSpecified 1 (spinsRef st').
Proof.
  eexists. split; [reflexivity|].
  intros (_ & Hcount & _).
  destruct (Hcount 0%Z 0%Z _ ltac:(lia) ltac:(lia) eq_refl) as (Hcorner & _).
  specialize (Hcorner eq_refl). discriminate Hcorner.
Qed.

Lemma lattice_placement_witness :
  exists st' s, buildLattice (Example.props 2 false) (mounted Example.blank 4) = Normal st' /\
    index (spinsRef st') (1 * 2 + 0) = Some s /\
    position s = mkVector3 0.25%float (-0.25)%float 0%float /\
    direction s = mkVector3 0%float 0%float 1%float /\
    (forall s', s' ∈ spinsRef st' -> direction s' = mkVector3 0%float 0%float 1%float).
Proof.
  pose proof (lattice_placement (Example.props 2 false) (mounted Example.blank 4) 1 0)
    as P.
  cbv zeta in P. apply P; simpl; lia.
Defined.

Lemma lattice_nonpositive_size_witness :
  ~ rejects (Example.props (-3) false) (mounted Example.blank 9) /\
  exists st', buildLattice (Example.props (-3) false) (mounted Example.blank 9) = Normal st' /\
    spinsRef st' = [] /\
    headMeshRef st' = headMeshRef (mounted Example.blank 9) /\
    shaftMeshRef st' = shaftMeshRef (mounted Example.blank 9).
Proof.
  apply (lattice_nonpositive_size (Example.props (-3) false) (mounted Example.blank 9)).
  simpl. lia.
Defined.

(** C9 as stated fails at gridSize = -1: the build completes normally. *)
Lemma lattice_rejection_counterexample :
  (-1 < 0)%Z /\
  ~ rejects (Example.props (-1) false) (mounted Example.blank 1) /\
  exists st', buildLattice (Example.props (-1) false) (mounted Example.blank 1) = Normal st' /\
    spinsRef st' = [].
Proof.
  split; [lia|]. split.
  - intros [e He]. discriminate He.
  - eexists. split; reflexivity.
Qed.

(** ** Frame Driver *)

Section FrameDriver.
Context {T : Type} `{Number T} `{Placement T}.

Lemma useFrameIn_site order props hit delta (st : State T) i h sh :
  headMeshRef st = Some h -> shaftMeshRef st = Some sh -> spinsRef st <> [] ->
  NoDup order -> i ∈ order ->
  spinsRef (useFrameIn order props hit delta st) !! i
  = spinsRef (stepSite props (timeStep props delta) (takeSnapshot (movePointer hit st)) i) !! i.
Proof.
  intros Hh Hsh Hne Hnd Hi. unfold useFrameIn. simpl. rewrite Hh, Hsh.
  destruct (spinsRef st) as [|s0 spins] eqn:E; [done|]. rewrite <- E in *.
  by apply stepSites_lookup.
Qed.

(** C4: two executions of one frame step over the same lattice state,
    pointer position, parameters and delta that differ only in the order in
    which the sites are visited end with the same per-site directions and
    transforms (and the same instance buffers): the callback of a site
    writes, for that site, what it would write when run first, on the
    pre-step snapshot. *)
Theorem frame_order_independent props hit delta (st : State T) (order1 order2 : list nat) :
  order1 ≡ₚ order2 ->
  sameOutput (useFrameIn order1 props hit delta st) (useFrameIn order2 props hit delta st) /\
  forall i h sh,
    headMeshRef st = Some h -> shaftMeshRef st = Some sh -> spinsRef st <> [] ->
    NoDup order1 -> i ∈ order1 ->
    spinsRef (useFrameIn order2 props hit delta st) !! i
    = spinsRef (stepSite props (timeStep props delta)
                  (takeSnapshot (movePointer hit st)) i) !! i.
Proof.
  intros Hperm. split.
  - unfold useFrameIn.
    destruct (headMeshRef (movePointer hit st)); [|apply sameOutput_refl].
    destruct (shaftMeshRef (movePointer hit st)); [|apply sameOutput_refl].
    destruct (spinsRef (movePointer hit st)); [apply sameOutput_refl|].
    apply stepSites_permutation; [done|apply sameOutput_refl].
  - intros i h sh Hh Hsh Hne Hnd Hi.
    apply (useFrameIn_site _ _ _ _ _ _ h sh); try done.
    + by rewrite <- Hperm.
    + by rewrite <- Hperm.
Qed.

(** C10: the exchange sum of a site takes exactly the neighbour indices
    that have an entry in the snapshot; an index below 0 or past the end of
    the snapshot has none, and the sum is what it would be with that index
    left out of the neighbour list. *)
Theorem exchange_skips_missing_entries props dt (st : State T) i spin :
  spinsRef st !! i = Some spin ->
  let prev := prevDirectionsRef st in
  let scaling := mul (exchangeStrength props) (ofZ 1000000) in
  H_exch (stepSite props dt st i)
  = THREE.multiplyScalar
      (fold_left THREE.add_ (omap (index prev) (neighbors spin)) (mkVector3 zero zero zero))
      scaling /\
  (forall k, (k < 0 \/ Z.of_nat (List.length prev) <= k)%Z -> index prev k = None) /\
  (forall before k after,
      neighbors spin = before ++ k :: after -> index prev k = None ->
      H_exch (stepSite props dt st i)
      = THREE.multiplyScalar
          (exchangeLoop prev (before ++ after) (mkVector3 zero zero zero)) scaling).
Proof.
  intros Hi prev scaling. rewrite (stepSite_H_exch _ _ _ _ _ Hi).
  fold prev scaling. split; [by rewrite exchangeLoop_entries|].
  split; [intros k Hk; by apply index_None|].
  intros before k after -> Hk. f_equal.
  rewrite !exchangeLoop_entries, !omap_app. simpl. by rewrite Hk.
Qed.
End FrameDriver.

Lemma frame_order_independent_witness :
  let st := Example.build 2 in
  let hit := Some (mkVector3 0.3 0.1 0)%float in
  sameOutput (useFrameIn [0; 1; 2; 3] (Example.props 2 false) hit 0.016%float st)
             (useFrameIn [1; 0; 2; 3] (Example.props 2 false) hit 0.016%float st) /\
  forall i h sh,
    headMeshRef st = Some h -> shaftMeshRef st = Some sh -> spinsRef st <> [] ->
    NoDup [0; 1; 2; 3] -> i ∈ [0; 1; 2; 3] ->
    spinsRef (useFrameIn [1; 0; 2; 3] (Example.props 2 false) hit 0.016%float st) !! i
    = spinsRef (stepSite (Example.props 2 false)
                  (timeStep (Example.props 2 false) 0.016%float)
                  (takeSnapshot (movePointer hit st)) i) !! i.
Proof.
  intros st hit.
  apply (frame_order_independent (Example.props 2 false) hit 0.016%float st
           [0; 1; 2; 3] [1; 0; 2; 3]).
  apply perm_swap.
Defined.

(** One site whose neighbour list names itself, an index past the end of the
    one-entry snapshot and a negative index. *)
Lemma exchange_skips_missing_entries_witness :
  let st := Example.dangling in
  let prev := prevDirectionsRef st in
  let scaling := mul (exchangeStrength (Example.props 1 false)) (ofZ 1000000) in
  H_exch (stepSite (Example.props 1 false) 1.5e-11%float st 0)
  = THREE.multiplyScalar
      (fold_left THREE.add_ (omap (index prev) [0; 7; -1]%Z) (mkVector3 zero zero zero))
      scaling /\
  (forall k, (k < 0 \/ Z.of_nat (List.length prev) <= k)%Z -> index prev k = None) /\
  (forall before k after,
      [0; 7; -1]%Z = before ++ k :: after -> index prev k = None ->
      H_exch (stepSite (Example.props 1 false) 1.5e-11%float st 0)
      = THREE.multiplyScalar
          (exchangeLoop prev (before ++ after) (mkVector3 zero zero zero)) scaling).
Proof.
  intros st prev scaling.
  pose proof (exchange_skips_missing_entries (Example.props 1 false) 1.5e-11%float
                Example.dangling 0) as P.
  cbv zeta in P. exact (P _ eq_refl).
Defined.

(** ** Field Evaluator and Integrator, in exact arithmetic *)

Section ExactClaims.
Context `{Placement R}.
Local Open Scope R_scope.

Lemma H_eff_sum props dt (st : State R) i spin :
  spinsRef st !! i = Some spin ->
  H_eff (stepSite props dt st i)
  = LLG.vadd (LLG.signedExternalTerm (isFieldInverted props) (externalFieldStrength props)
                (position spin) (mousePosRef st))
             (LLG.exchangeTerm (exchangeStrength props) (prevDirectionsRef st)
                (neighbors spin)).
Proof.
  intros Hi.
  by rewrite (stepSite_H_eff _ _ _ _ _ Hi), (H_ext_signedExternalTerm _ _ _ _ _ Hi),
    (H_exch_exchangeTerm _ _ _ _ _ Hi).
Qed.

Lemma externalTerm_zero_strength (site pointer : Vector3 R) :
  LLG.externalTerm 0 site pointer = LLG.vzero.
Proof.
  unfold LLG.externalTerm.
  destruct (Req_dec_T _ 0) as [|Hne]; [done|].
  pose proof (normSq_nonneg (LLG.vsub site pointer)).
  apply vector3_eq; simpl; field; split; try done; lra.
Qed.

(** No neighbours and no external field: no effective field. *)
Lemma isolated_site_field props dt (st : State R) i spin :
  spinsRef st !! i = Some spin ->
  neighbors spin = [] -> externalFieldStrength props = 0 ->
  H_eff (stepSite props dt st i) = LLG.vzero.
Proof.
  intros Hi Hn He. rewrite (H_eff_sum _ _ _ _ _ Hi), Hn, He.
  unfold LLG.signedExternalTerm. rewrite externalTerm_zero_strength.
  destruct (isFieldInverted props); apply vector3_eq; simpl; ring.
Qed.

Lemma parallel_vzero (a : Vector3 R) : LLG.parallel a LLG.vzero.
Proof. exists 0. apply vector3_eq; simpl; ring. Qed.

Lemma cross_parallel (a b : Vector3 R) : LLG.parallel a b -> LLG.cross a b = LLG.vzero.
Proof. intros [k ->]. apply vector3_eq; simpl; ring. Qed.

Lemma cross_vzero_r (a : Vector3 R) : LLG.cross a LLG.vzero = LLG.vzero.
Proof. apply vector3_eq; simpl; ring. Qed.

Lemma length_up : THREE.length (mkVector3 0 0 1 : Vector3 R) = 1.
Proof.
  rewrite length_norm. unfold LLG.norm, LLG.normSq. cbn [THREE.vx THREE.vy THREE.vz].
  replace (0 ^ 2 + 0 ^ 2 + 1 ^ 2) with 1 by ring. apply sqrt_1.
Qed.




(** C3, amended: the field the callback computes for a site is the sum of
    exactly two terms: the external term, the normalized vector from the
    pointer position to the site position scaled by
    externalFieldStrength / (1 + 5*d^2), the zero vector when the offset has
    zero length, and negated when the field-polarity flag is set; and the
    exchange term, the sum of the snapshot directions of the neighbours of
    the site scaled by exchangeStrength * 1e6. *)
Theorem field_evaluator_output props hit dt (st : State R) i spin :
  spinsRef st !! i = Some spin ->
  let snapshot := map direction (spinsRef st) in
  H_eff (stepSite props dt (takeSnapshot (movePointer hit st)) i)
  = LLG.vadd
      (LLG.signedExternalTerm (isFieldInverted props) (externalFieldStrength props)
         (position spin) (pointerAfter hit st))
      (LLG.exchangeTerm (exchangeStrength props) snapshot (neighbors spin)).
Proof.
  intros Hi snapshot.
  by rewrite (H_eff_sum props dt (takeSnapshot (movePointer hit st)) i spin Hi).
Qed.


End ExactClaims.

(** *** The claims at concrete inputs *)

Section ExactExamples.
Local Open Scope R_scope.




Lemma field_evaluator_output_witness :
  let st := Example.isolated (mkVector3 1 0 0) in
  let props := Example.propsR true 6 in
  H_eff (stepSite props 1%R (takeSnapshot (movePointer None st)) 0%nat)
  = LLG.vadd
      (LLG.signedExternalTerm true 6 (mkVector3 1 0 0) (pointerAfter None st))
      (LLG.exchangeTerm 0 [mkVector3 0%R 0%R 1%R] []).
Proof.
  intros st props.
  exact (field_evaluator_output props None 1%R st 0%nat _ eq_refl).
Defined.


End ExactExamples.

(** ** The callback on binary64 *)

(** The 2 x 2 lattice with the defaults, the pointer far away at
    (100, 100, 0) and delta = 0.016: after one frame every direction is
    within 1e-4 of (0, 0, 1) and of unit length. *)
Example far_pointer_binary64 :
  forallb (fun s => Example.near (THREE.length (direction s)) 1 1e-4
                    && Example.near (vz (direction s)) 1 1e-4)
          (spinsRef (useFrame (Example.props 2 false) (Some (mkVector3 100 100 0)%float)
                       0.016%float (Example.build 2)))
  = true.
Proof. vm_compute. reflexivity. Qed.

(** Finite inputs can overflow: with externalFieldStrength = 1e308 the
    scaled cross products are infinite and the normalized direction is
    (NaN, NaN, 0). *)
Example overflow_binary64 :
  (fun d => (PrimFloat.is_nan (vx d), PrimFloat.is_nan (vy d), PrimFloat.eqb (vz d) 0))
    <$> (direction <$> spinsRef (useFrame Example.hugeField None 0.016%float
                                   Example.dangling) !! 0%nat)
  = Some (true, true, true).
Proof. vm_compute. reflexivity. Qed.

(** ** What every frame keeps *)

Section FrameInvariants.
Context {T : Type} `{Number T} `{Placement T}.

(** The guard of the callback: either it returns after moving the pointer,
    or both meshes are mounted and the lattice is not empty. *)
Lemma useFrame_cases props hit delta (st : State T) :
  (useFrame props hit delta st = movePointer hit st /\
   (headMeshRef st = None \/ shaftMeshRef st = None \/ spinsRef st = [])) \/
  (exists h sh, headMeshRef st = Some h /\ shaftMeshRef st = Some sh /\ spinsRef st <> [] /\
     useFrame props hit delta st
     = stepSites props (timeStep props delta) (seq 0 (List.length (spinsRef st)))
         (takeSnapshot (movePointer hit st))).
Proof.
  unfold useFrame, useFrameIn. simpl.
  destruct (headMeshRef st) as [h|]; [|left; auto].
  destruct (shaftMeshRef st) as [sh|]; [|left; auto].
  destruct (spinsRef st) as [|s0 spins] eqn:E; [left; auto|].
  right. exists h, sh. split; [done|]. split; [done|]. split; done.
Qed.

Lemma stepSite_fixedPart props dt (st : State T) i :
  fixedPart <$> spinsRef (stepSite props dt st i) = fixedPart <$> spinsRef st.
Proof.
  unfold stepSite. destruct (spinsRef st !! i) as [spin|] eqn:E; [|done]. simpl.
  rewrite list_fmap_insert. apply list_insert_id.
  by rewrite list_lookup_fmap, E.
Qed.

Lemma stepSites_fixedPart props dt order (st : State T) :
  fixedPart <$> spinsRef (stepSites props dt order st) = fixedPart <$> spinsRef st.
Proof.
  revert st. induction order as [|i order IH]; intros st; [done|]. simpl.
  by rewrite IH, stepSite_fixedPart.
Qed.

Lemma useFrame_fixedPart props hit delta (st : State T) :
  fixedPart <$> spinsRef (useFrame props hit delta st) = fixedPart <$> spinsRef st.
Proof.
  destruct (useFrame_cases props hit delta st) as [[-> _]|(h & sh & _ & _ & _ & ->)]; [done|].
  by rewrite stepSites_fixedPart.
Qed.

Lemma runFrames_fixedPart (inputs : list (FrameInput T)) (st : State T) :
  fixedPart <$> spinsRef (runFrames inputs st) = fixedPart <$> spinsRef st.
Proof.
  revert st. induction inputs as [|f inputs IH]; intros st; [done|].
  change (runFrames (f :: inputs) st)
    with (runFrames inputs (useFrame (frameProps f) (frameHit f) (frameDelta f) st)).
  by rewrite IH, useFrame_fixedPart.
Qed.

(** X1: whatever the props, pointer and clock of each frame, after any number
    of frames the lattice has as many sites as before and every site has the
    id, the position and the neighbour list it had: the callback writes only
    directions and matrices. *)
Theorem frames_keep_sites (inputs : list (FrameInput T)) (st : State T) :
  fixedPart <$> spinsRef (runFrames inputs st) = fixedPart <$> spinsRef st /\
  List.length (spinsRef (runFrames inputs st)) = List.length (spinsRef st).
Proof.
  pose proof (runFrames_fixedPart inputs st) as E.
  split; [done|].
  apply (f_equal List.length) in E. by rewrite !length_fmap in E.
Qed.

(** X2: after a frame the stored pointer position is the point where the ray
    met the plane, and the position stored before when it met nowhere;
    this holds also when the frame returns early. *)
Theorem frame_tracks_pointer props hit delta (st : State T) :
  mousePosRef (useFrame props hit delta st)
  = match hit with Some target => target | None => mousePosRef st end.
Proof.
  destruct (useFrame_cases props hit delta st) as [[-> _]|(h & sh & _ & _ & _ & ->)]; [done|].
  by destruct (stepSites_frame props (timeStep props delta)
                 (seq 0 (List.length (spinsRef st))) (takeSnapshot (movePointer hit st)))
    as (-> & _ & _).
Qed.

(** X3: when both meshes are mounted and the lattice is not empty, the
    snapshot a frame leaves in [prevDirectionsRef] is the list of the
    directions the sites had before the frame, one per site and in site
    order; none of the directions written during the frame enters it. *)
Theorem frame_snapshot_is_pre_step props hit delta (st : State T) h sh :
  headMeshRef st = Some h -> shaftMeshRef st = Some sh -> spinsRef st <> [] ->
  prevDirectionsRef (useFrame props hit delta st) = direction <$> spinsRef st.
Proof.
  intros Hh Hsh Hne.
  destruct (useFrame_cases props hit delta st)
    as [[_ [E|[E|E]]]|(h' & sh' & _ & _ & _ & ->)]; try congruence.
  by destruct (stepSites_frame props (timeStep props delta)
                 (seq 0 (List.length (spinsRef st))) (takeSnapshot (movePointer hit st)))
    as (_ & -> & _).
Qed.
End FrameInvariants.

Lemma frame_snapshot_is_pre_step_witness :
  prevDirectionsRef (useFrame (Example.props 2 false) (Some (mkVector3 0.3 0.1 0)%float)
                       0.016%float (Example.build 2))
  = direction <$> spinsRef (Example.build 2).
Proof.
  apply (frame_snapshot_is_pre_step (Example.props 2 false) (Some (mkVector3 0.3 0.1 0)%float)
           0.016%float (Example.build 2) _ _ eq_refl eq_refl).
  discriminate.
Defined.

(** ** Transforms and instance buffers *)

Section Transforms.
Context {T : Type} `{Number T} `{Placement T}.

Lemma setMatrixAt_lookup (mesh : option (list Matrix4)) i j (mat mat' : Matrix4) buf :
  setMatrixAt mesh i mat = Some buf -> buf !! j = Some mat' ->
  (i = j /\ mat' = mat) \/
  (i <> j /\ exists buf0, mesh = Some buf0 /\ buf0 !! j = Some mat').
Proof.
  destruct mesh as [buf0|]; [|done]. simpl. intros [= <-] Hj.
  apply list_lookup_insert_Some in Hj as [(-> & -> & _)|[Hne Hj]]; [by left|].
  right. split; [done|]. by exists buf0.
Qed.

Lemma setMatrixAt_length (mesh : option (list Matrix4)) i (mat : Matrix4) :
  List.length <$> setMatrixAt mesh i mat = List.length <$> mesh.
Proof. destruct mesh as [buf|]; [|done]. simpl. by rewrite length_insert. Qed.

Lemma stepSite_mirrorAt_self props dt (st : State T) j :
  mirrorAt (stepSite props dt st j) j.
Proof.
  unfold mirrorAt, stepSite. destruct (spinsRef st !! j) as [sj|] eqn:E.
  - simpl. intros spin Hs.
    rewrite list_lookup_insert_eq in Hs by (by apply lookup_lt_Some in E).
    injection Hs as <-. split; [done|]. simpl. split.
    + intros buf mat Hb Hm.
      by destruct (setMatrixAt_lookup _ _ _ _ _ _ Hb Hm) as [[_ ->]|[? _]].
    + intros buf mat Hb Hm.
      by destruct (setMatrixAt_lookup _ _ _ _ _ _ Hb Hm) as [[_ ->]|[? _]].
  - intros spin Hs. by rewrite E in Hs.
Qed.

Lemma stepSite_mirrorAt_other props dt (st : State T) i j :
  i <> j -> mirrorAt st i -> mirrorAt (stepSite props dt st j) i.
Proof.
  intros Hij Hm. unfold mirrorAt, stepSite in *.
  destruct (spinsRef st !! j) as [sj|] eqn:E; [|done]. simpl.
  intros spin Hs. rewrite list_lookup_insert_ne in Hs by done.
  destruct (Hm spin Hs) as (Hp & Hh & Hsh). split; [done|]. split.
  - intros buf mat Hb Hl.
    destruct (setMatrixAt_lookup _ _ _ _ _ _ Hb Hl) as [[? _]|[_ (buf0 & Hb0 & Hl0)]];
      [done|]. by eapply Hh.
  - intros buf mat Hb Hl.
    destruct (setMatrixAt_lookup _ _ _ _ _ _ Hb Hl) as [[? _]|[_ (buf0 & Hb0 & Hl0)]];
      [done|]. by eapply Hsh.
Qed.

Lemma stepSites_mirrorAt props dt order (st : State T) i :
  i ∈ order \/ mirrorAt st i -> mirrorAt (stepSites props dt order st) i.
Proof.
  revert st. induction order as [|j order IH]; intros st Hi.
  - destruct Hi as [Hi|Hi]; [by apply elem_of_nil in Hi|done].
  - simpl. apply IH. destruct (decide (i = j)) as [->|Hne].
    + right. apply stepSite_mirrorAt_self.
    + destruct Hi as [Hi|Hi].
      * apply elem_of_cons in Hi as [?|?]; [done|by left].
      * right. by apply stepSite_mirrorAt_other.
Qed.

Lemma stepSite_buffer_lengths props dt (st : State T) i :
  List.length <$> headMeshRef (stepSite props dt st i) = List.length <$> headMeshRef st /\
  List.length <$> shaftMeshRef (stepSite props dt st i) = List.length <$> shaftMeshRef st.
Proof.
  unfold stepSite. destruct (spinsRef st !! i); [|done]. simpl.
  by rewrite !setMatrixAt_length.
Qed.

Lemma stepSites_buffer_lengths props dt order (st : State T) :
  List.length <$> headMeshRef (stepSites props dt order st) = List.length <$> headMeshRef st /\
  List.length <$> shaftMeshRef (stepSites props dt order st) = List.length <$> shaftMeshRef st.
Proof.
  revert st. induction order as [|i order IH]; intros st; [done|]. simpl.
  destruct (IH (stepSite props dt st i)) as [-> ->]. apply stepSite_buffer_lengths.
Qed.

Lemma useFrame_buffer_lengths props hit delta (st : State T) :
  List.length <$> headMeshRef (useFrame props hit delta st) = List.length <$> headMeshRef st /\
  List.length <$> shaftMeshRef (useFrame props hit delta st) = List.length <$> shaftMeshRef st.
Proof.
  destruct (useFrame_cases props hit delta st) as [[-> _]|(h & sh & _ & _ & _ & ->)]; [done|].
  apply (stepSites_buffer_lengths props _ _ (takeSnapshot (movePointer hit st))).
Qed.

Lemma useFrame_mirrored_run props hit delta (st : State T) h sh :
  headMeshRef st = Some h -> shaftMeshRef st = Some sh -> spinsRef st <> [] ->
  mirrored (useFrame props hit delta st).
Proof.
  intros Hh Hsh Hne i.
  destruct (useFrame_cases props hit delta st)
    as [[_ [E|[E|E]]]|(h' & sh' & _ & _ & _ & Hrun)]; try congruence.
  intros spin Hs.
  assert (i < List.length (spinsRef st))%nat as Hlt.
  { pose proof (useFrame_fixedPart props hit delta st) as E.
    apply (f_equal List.length) in E. rewrite !length_fmap in E.
    rewrite <- E. by eapply lookup_lt_Some. }
  revert spin Hs. rewrite Hrun. apply stepSites_mirrorAt. left.
  apply elem_of_seq. lia.
Qed.

Lemma useFrame_mirrored props hit delta (st : State T) :
  mirrored st -> mirrored (useFrame props hit delta st).
Proof.
  intros Hm.
  destruct (useFrame_cases props hit delta st) as [[-> _]|(h & sh & Hh & Hsh & Hne & _)].
  - done.
  - by eapply useFrame_mirrored_run.
Qed.

Lemma upload_from (k : nat) (spins : list (Spin T)) (buf : list Matrix4) :
  exists buf',
    fold_left (fun mesh '(index, spin) => setMatrixAt mesh index (matrix spin))
              (imap (fun i spin => ((k + i)%nat, spin)) spins) (Some buf) = Some buf' /\
    List.length buf' = List.length buf /\
    (forall j, (j < k)%nat -> buf' !! j = buf !! j) /\
    (forall i spin mat, spins !! i = Some spin -> buf' !! (k + i)%nat = Some mat ->
       mat = matrix spin).
Proof.
  revert k buf. induction spins as [|s rest IH]; intros k buf.
  - exists buf. by repeat split.
  - simpl.
    rewrite (imap_ext _ (fun i spin => ((S k + i)%nat, spin)))
      by (intros i x _; simpl; f_equal; lia).
    destruct (IH (S k) (<[(k + 0)%nat := matrix s]> buf)) as (buf' & Hf & Hl & Hlow & Hup).
    exists buf'. split; [done|]. split; [by rewrite Hl, length_insert|]. split.
    + intros j Hj. rewrite Hlow by lia. apply list_lookup_insert_ne. lia.
    + intros [|i] spin mat Hs Hm.
      * simpl in Hs. injection Hs as <-. rewrite Hlow in Hm by lia.
        by apply list_lookup_insert_Some in Hm as [(_ & -> & _)|[? _]].
      * simpl in Hs. apply (Hup i); [done|].
        by replace (S k + i)%nat with (k + S i)%nat by lia.
Qed.

Lemma uploadAll_mirrors (spins : list (Spin T)) (buf : list Matrix4) :
  exists buf', uploadAll spins (Some buf) = Some buf' /\
    List.length buf' = List.length buf /\
    forall i spin mat, spins !! i = Some spin -> buf' !! i = Some mat -> mat = matrix spin.
Proof.
  destruct (upload_from 0 spins buf) as (buf' & Hf & Hl & _ & Hup).
  exists buf'. split; [exact Hf|]. split; [done|]. exact Hup.
Qed.

Lemma lattice_placed gridSize (spin : Spin T) : spin ∈ lattice gridSize -> placed spin.
Proof.
  intros [a Ha]%list_elem_of_lookup.
  by apply lattice_lookup_nat in Ha as (i & j & _ & _ & _ & ->).
Qed.

Lemma buildLattice_mirrored props (st : State T) h sh :
  headMeshRef st = Some h -> shaftMeshRef st = Some sh ->
  exists st' h' sh', buildLattice props st = Normal st' /\ mirrored st' /\
    spinsRef st' = lattice (gridSize props) /\
    headMeshRef st' = Some h' /\ List.length h' = List.length h /\
    shaftMeshRef st' = Some sh' /\ List.length sh' = List.length sh.
Proof.
  intros Hh Hsh. unfold buildLattice.
  pose proof (buildSpins_lattice (gridSize props) (q st)) as E.
  destruct (buildSpins (gridSize props) (q st)) as [spins q'].
  simpl in E. subst spins. rewrite Hh, Hsh.
  destruct (uploadAll_mirrors (lattice (gridSize props)) h) as (h' & Eh & Lh & Mh).
  destruct (uploadAll_mirrors (lattice (gridSize props)) sh) as (sh' & Esh & Lsh & Msh).
  eexists _, h', sh'. split; [reflexivity|]. simpl.
  split; [|by repeat split].
  intros i spin Hs. simpl in Hs. split.
  - apply (lattice_placed (gridSize props)). by eapply list_elem_of_lookup_2.
  - simpl. rewrite Eh, Esh. split.
    + intros buf mat [= <-] Hm. by eapply Mh.
    + intros buf mat [= <-] Hm. by eapply Msh.
Qed.

(** X4: after a frame that runs (both meshes mounted, lattice not empty),
    every site's matrix is the one composed from its position and the
    rotation of (0,0,1) onto its new direction, each instance buffer holds at
    every index it reaches the matrix of the site with that index, and both
    buffers have the length they had. *)
Theorem frame_emits_current_transforms props hit delta (st : State T) h sh :
  headMeshRef st = Some h -> shaftMeshRef st = Some sh -> spinsRef st <> [] ->
  mirrored (useFrame props hit delta st) /\
  List.length <$> headMeshRef (useFrame props hit delta st) = Some (List.length h) /\
  List.length <$> shaftMeshRef (useFrame props hit delta st) = Some (List.length sh).
Proof.
  intros Hh Hsh Hne. split; [by eapply useFrame_mirrored_run|].
  destruct (useFrame_buffer_lengths props hit delta st) as [-> ->].
  by rewrite Hh, Hsh.
Qed.

(** X5: a build with both meshes mounted, followed by any number of frames,
    always leaves the buffers in step with the lattice: every site's matrix
    is composed from its position and current direction, and each buffer
    holds at every index it reaches the matrix of that site. *)
Theorem buffers_follow_lattice props (st : State T) h sh (inputs : list (FrameInput T)) :
  headMeshRef st = Some h -> shaftMeshRef st = Some sh ->
  exists st', buildLattice props st = Normal st' /\ mirrored (runFrames inputs st').
Proof.
  intros Hh Hsh.
  destruct (buildLattice_mirrored props st h sh Hh Hsh) as (st' & _ & _ & Hb & Hm & _).
  exists st'. split; [done|]. clear Hb. revert st' Hm.
  induction inputs as [|f inputs IH]; intros st' Hm; [done|].
  change (runFrames (f :: inputs) st')
    with (runFrames inputs (useFrame (frameProps f) (frameHit f) (frameDelta f) st')).
  by apply IH, useFrame_mirrored.
Qed.
End Transforms.

Lemma frame_emits_current_transforms_witness :
  let st' := useFrame (Example.props 2 false) (Some (mkVector3 0.3 0.1 0)%float)
               0.016%float (Example.build 2) in
  mirrored st' /\
  List.length <$> headMeshRef st' = Some 4%nat /\
  List.length <$> shaftMeshRef st' = Some 4%nat.
Proof.
  apply (frame_emits_current_transforms (Example.props 2 false)
           (Some (mkVector3 0.3 0.1 0)%float) 0.016%float (Example.build 2)
           _ _ eq_refl eq_refl).
  discriminate.
Defined.

Lemma buffers_follow_lattice_witness :
  exists st', buildLattice (Example.props 2 false) (mounted Example.blank 4) = Normal st' /\
    mirrored (runFrames [mkFrameInput (Example.props 2 false)
                           (Some (mkVector3 0.3 0.1 0)%float) 0.016%float;
                         mkFrameInput (Example.props 2 true) None 0.5%float] st').
Proof.
  exact (buffers_follow_lattice (Example.props 2 false) (mounted Example.blank 4) _ _
           [mkFrameInput (Example.props 2 false) (Some (mkVector3 0.3 0.1 0)%float) 0.016%float;
            mkFrameInput (Example.props 2 true) None 0.5%float]
           eq_refl eq_refl).
Defined.

(** ** More on the builder *)

Section BuilderFacts.
Context {T : Type} `{Number T} `{Placement T}.

Lemma runFrames_cons (f : FrameInput T) inputs (st : State T) :
  runFrames (f :: inputs) st
  = runFrames inputs (useFrame (frameProps f) (frameHit f) (frameDelta f) st).
Proof. reflexivity. Qed.

Lemma useFrame_empty props hit delta (st : State T) :
  spinsRef st = [] -> useFrame props hit delta st = movePointer hit st.
Proof.
  intros E.
  destruct (useFrame_cases props hit delta st) as [[-> _]|(h & sh & _ & _ & Hne & _)]; done.
Qed.

(** X6: after a build with gridSize <= 0 no frame ever writes anything but
    the pointer position: the lattice stays empty, and the instance buffers
    and the snapshot stay what they were before the build. *)
Theorem empty_lattice_frames_idle props (st : State T) (inputs : list (FrameInput T)) :
  (gridSize props <= 0)%Z ->
  exists st', buildLattice props st = Normal st' /\
    spinsRef (runFrames inputs st') = [] /\
    headMeshRef (runFrames inputs st') = headMeshRef st /\
    shaftMeshRef (runFrames inputs st') = shaftMeshRef st /\
    prevDirectionsRef (runFrames inputs st') = prevDirectionsRef st.
Proof.
  intros HN.
  assert (exists st', buildLattice props st = Normal st' /\ spinsRef st' = [] /\
            headMeshRef st' = headMeshRef st /\ shaftMeshRef st' = shaftMeshRef st /\
            prevDirectionsRef st' = prevDirectionsRef st) as (st' & Hb & Hs & Hh & Hsh & Hp).
  { unfold buildLattice.
    pose proof (buildSpins_lattice (gridSize props) (q st)) as E.
    destruct (buildSpins (gridSize props) (q st)) as [spins q'].
    simpl in E. subst spins. rewrite lattice_nonpositive by done.
    eexists. split; [reflexivity|]. simpl. split; [done|].
    by destruct (headMeshRef st), (shaftMeshRef st). }
  exists st'. split; [done|]. rewrite <- Hh, <- Hsh, <- Hp. clear Hb Hh Hsh Hp.
  revert st' Hs. induction inputs as [|f inputs IH]; intros st' Hs; [done|].
  rewrite runFrames_cons, useFrame_empty by done.
  by destruct (IH (movePointer (frameHit f) st') Hs) as (-> & -> & -> & ->).
Qed.

(** X7: what the builder produces depends on gridSize alone: a rebuild with
    the same gridSize, from whatever state the frames in between have left,
    produces site for site the lattice of the first build, every direction
    back at (0,0,1). *)
Theorem rebuild_restores_lattice props props' (st : State T) (inputs : list (FrameInput T)) :
  gridSize props' = gridSize props ->
  exists st1 st2, buildLattice props st = Normal st1 /\
    buildLattice props' (runFrames inputs st1) = Normal st2 /\
    spinsRef st2 = spinsRef st1 /\
    forall spin, spin ∈ spinsRef st2 -> direction spin = mkVector3 zero zero one.
Proof.
  intros Hg. destruct (buildLattice_spins props st) as (st1 & Hb1 & Hs1).
  destruct (buildLattice_spins props' (runFrames inputs st1)) as (st2 & Hb2 & Hs2).
  exists st1, st2. split; [done|]. split; [done|]. split; [by rewrite Hs1, Hs2, Hg|].
  intros spin. rewrite Hs2. intros [a Ha]%list_elem_of_lookup.
  by apply lattice_lookup_nat in Ha as (i & j & _ & _ & _ & ->).
Qed.

Lemma grid_index_unique (N i j i' j' : Z) :
  (0 <= j < N)%Z -> (0 <= j' < N)%Z ->
  (i * N + j = i' * N + j')%Z -> i = i' /\ j = j'.
Proof.
  intros Hj Hj' E.
  assert (i = i') as -> by nia. split; [done|lia].
Qed.

(** X8: in the lattice of a build, the neighbour list of a site never names
    the site itself and never names a site twice. *)
Theorem neighbors_distinct props (st st' : State T) (a : Z) (sa : Spin T) :
  buildLattice props st = Normal st' -> index (spinsRef st') a = Some sa ->
  (a ∉ neighbors sa) /\ NoDup (neighbors sa).
Proof.
  intros Hb Ha.
  destruct (buildLattice_spins props st) as (st'' & Hb' & Hs).
  rewrite Hb in Hb'. injection Hb' as <-. rewrite Hs in Ha.
  apply lattice_lookup_inv in Ha as (i & j & Hi & Hj & -> & ->). simpl. split.
  - intros Hin%elem_of_buildNeighbors. nia.
  - unfold buildNeighbors.
    destruct (Z.ltb_spec 0 i), (Z.ltb_spec i (gridSize props - 1)),
      (Z.ltb_spec 0 j), (Z.ltb_spec j (gridSize props - 1)); simpl;
      repeat (apply NoDup_cons; split; [rewrite ?elem_of_cons, ?elem_of_nil; nia|]);
      apply NoDup_nil_2.
Qed.

(** X9: in the lattice of a build with gridSize N, for grid coordinates
    (i, j) and (i', j') inside the grid, the index i'*N + j' is in the
    neighbour list of the site i*N + j exactly when the two coordinates are
    one step apart along one axis. *)
Theorem neighbors_are_adjacent_sites props (st : State T) (i j i' j' : Z) :
  (0 <= i < gridSize props)%Z -> (0 <= j < gridSize props)%Z ->
  (0 <= i' < gridSize props)%Z -> (0 <= j' < gridSize props)%Z ->
  exists st' s, buildLattice props st = Normal st' /\
    index (spinsRef st') (i * gridSize props + j) = Some s /\
    ((i' * gridSize props + j')%Z ∈ neighbors s <-> adjacent i j i' j').
Proof.
  intros Hi Hj Hi' Hj'.
  destruct (buildLattice_spins props st) as (st' & Hb & Hs).
  exists st', (siteAt (gridSize props) i j). split; [done|]. rewrite Hs.
  split; [by apply lattice_lookup|]. simpl.
  rewrite elem_of_buildNeighbors. unfold adjacent. split.
  - intros [[? E]|[[? E]|[[? E]|[? E]]]];
      apply grid_index_unique in E as [-> ->]; lia.
  - intros Hadj.
    destruct (Z.eq_dec i' (i - 1)%Z) as [->|?]; [left; split; [lia|]; f_equal; lia|].
    destruct (Z.eq_dec i' (i + 1)%Z) as [->|?]; [right; left; split; [lia|]; f_equal; lia|].
    assert (i' = i) as -> by lia.
    destruct (Z.eq_dec j' (j - 1)%Z) as [->|?]; [right; right; left; split; [lia|done]|].
    assert (j' = (j + 1)%Z) as -> by lia. right; right; right. split; [lia|done].
Qed.
End BuilderFacts.

Lemma empty_lattice_frames_idle_witness :
  let st := mounted Example.blank 9 in
  let inputs := [mkFrameInput (Example.props (-3) false)
                   (Some (mkVector3 0.3 0.1 0)%float) 0.016%float] in
  exists st', buildLattice (Example.props (-3) false) st = Normal st' /\
    spinsRef (runFrames inputs st') = [] /\
    headMeshRef (runFrames inputs st') = headMeshRef st /\
    shaftMeshRef (runFrames inputs st') = shaftMeshRef st /\
    prevDirectionsRef (runFrames inputs st') = prevDirectionsRef st.
Proof.
  intros st inputs.
  apply (empty_lattice_frames_idle (Example.props (-3) false) st inputs).
  simpl. lia.
Defined.

Lemma rebuild_restores_lattice_witness :
  let inputs := [mkFrameInput (Example.props 2 false)
                   (Some (mkVector3 0.3 0.1 0)%float) 0.016%float] in
  exists st1 st2,
    buildLattice (Example.props 2 false) (mounted Example.blank 4) = Normal st1 /\
    buildLattice (Example.props 2 true) (runFrames inputs st1) = Normal st2 /\
    spinsRef st2 = spinsRef st1 /\
    forall spin, spin ∈ spinsRef st2 -> direction spin = mkVector3 0%float 0%float 1%float.
Proof.
  intros inputs.
  exact (rebuild_restores_lattice (Example.props 2 false) (Example.props 2 true)
           (mounted Example.blank 4) inputs eq_refl).
Defined.

Lemma neighbors_distinct_witness :
  (3%Z ∉ [1; 2]%Z) /\ NoDup [1; 2]%Z.
Proof.
  exact (neighbors_distinct (Example.props 2 false) (mounted Example.blank 4) _ 3 _
           eq_refl eq_refl).
Defined.

Lemma neighbors_are_adjacent_sites_witness :
  exists st' s, buildLattice (Example.props 3 false) (mounted Example.blank 9) = Normal st' /\
    index (spinsRef st') (1 * 3 + 1) = Some s /\
    ((0 * 3 + 1)%Z ∈ neighbors s <-> adjacent 1 1 0 1).
Proof.
  apply (neighbors_are_adjacent_sites (Example.props 3 false) (mounted Example.blank 9)
           1 1 0 1); simpl; lia.
Defined.

(** ** The integrator over successive frames, in exact arithmetic *)

Section ExactRuns.
Context `{Placement R}.
Local Open Scope R_scope.

Lemma norm_smul (k : R) (v : Vector3 R) : LLG.norm (LLG.smul k v) = Rabs k * LLG.norm v.
Proof.
  unfold LLG.norm.
  replace (LLG.normSq (LLG.smul k v)) with (Rsqr k * LLG.normSq v)
    by (unfold LLG.normSq, LLG.smul, Rsqr; simpl; ring).
  rewrite sqrt_mult; [|apply Rle_0_sqr|apply normSq_nonneg].
  by rewrite sqrt_Rsqr_abs.
Qed.

(** The direction a running frame stores for a site that had a unit
    direction. *)
Lemma useFrame_site_direction props hit delta (st : State R) i spin h sh :
  headMeshRef st = Some h -> shaftMeshRef st = Some sh ->
  spinsRef st !! i = Some spin -> direction spin <> LLG.vzero ->
  exists spin', spinsRef (useFrame props hit delta st) !! i = Some spin' /\
    direction spin'
    = LLG.m_new (gamma props) (alpha props) (direction spin)
        (H_eff (stepSite props (timeStep props delta) (takeSnapshot (movePointer hit st)) i))
        (timeStep props delta).
Proof.
  intros Hh Hsh Hi Hm.
  pose proof (stepSite_direction props (timeStep props delta)
                (takeSnapshot (movePointer hit st)) i spin Hi Hm) as Hd.
  rewrite <- (useFrame_site _ _ _ _ _ _ h sh Hh Hsh Hi) in Hd.
  destruct (spinsRef (useFrame props hit delta st) !! i) as [spin'|]; [|done].
  exists spin'. split; [done|]. simpl in Hd. by injection Hd.
Qed.

Lemma useFrame_unitDirections props hit delta (st : State R) :
  unitDirections st -> unitDirections (useFrame props hit delta st).
Proof.
  intros Hu spin' [i Hi']%list_elem_of_lookup.
  destruct (useFrame_cases props hit delta st) as [[E _]|(h & sh & Hh & Hsh & _ & _)].
  { rewrite E in Hi'. apply Hu. by eapply list_elem_of_lookup_2. }
  assert (is_Some (spinsRef st !! i)) as [spin Hi].
  { apply lookup_lt_is_Some.
    pose proof (useFrame_fixedPart props hit delta st) as E.
    apply (f_equal List.length) in E. rewrite !length_fmap in E.
    rewrite <- E. by eapply lookup_lt_Some. }
  assert (direction spin <> LLG.vzero) as Hm.
  { apply norm_one_nonzero. rewrite <- length_norm. apply Hu.
    by eapply list_elem_of_lookup_2. }
  destruct (useFrame_site_direction props hit delta st i spin h sh Hh Hsh Hi Hm)
    as (spin'' & Hs & Hd).
  rewrite Hi' in Hs. injection Hs as <-.
  rewrite length_norm, Hd. apply norm_normalized. by apply euler_step_nonzero.
Qed.

(** X10: in exact arithmetic, after a build and any number of frames, with
    whatever props, pointer and clock each frame has, every site's direction
    has length 1. *)
Theorem unit_directions_invariant props (st st' : State R) (inputs : list (FrameInput R)) :
  buildLattice props st = Normal st' ->
  unitDirections (runFrames inputs st').
Proof.
  intros Hb.
  assert (unitDirections st') as Hu.
  { destruct (buildLattice_spins props st) as (st'' & Hb' & Hs).
    rewrite Hb in Hb'. injection Hb' as <-.
    intros spin. rewrite Hs. intros [a Ha]%list_elem_of_lookup.
    apply lattice_lookup_nat in Ha as (i & j & _ & _ & _ & ->). apply length_up. }
  clear Hb. revert st' Hu. induction inputs as [|f inputs IH]; intros st' Hu; [done|].
  rewrite runFrames_cons. by apply IH, useFrame_unitDirections.
Qed.

(** X11: in exact arithmetic the increment dm/dt the callback computes for a
    site is orthogonal to the site's direction, so the Euler step before
    normalization never shortens the vector: its squared length is the
    squared length of the direction plus dt^2 times that of dm/dt. *)
Theorem euler_increment_orthogonal props dt (st : State R) i spin :
  spinsRef st !! i = Some spin ->
  let increment := dmdt (stepSite props dt st i) in
  dot (direction spin) increment = 0 /\
  THREE.lengthSq (THREE.addScaledVector (direction spin) increment dt)
  = THREE.lengthSq (direction spin) + dt ^ 2 * THREE.lengthSq increment.
Proof.
  intros Hi increment. unfold increment.
  rewrite (dmdt_rule _ _ _ _ _ Hi). cbv zeta.
  generalize (H_eff (stepSite props dt st i)) as field. intros field.
  generalize (gamma props / (1 + alpha props ^ 2)) as g. intros g.
  split.
  - unfold dot. simpl. ring.
  - unfold THREE.lengthSq, THREE.addScaledVector. simpl. ring.
Qed.

(** X12: in exact arithmetic the external term the callback computes for a
    site is the zero vector when the pointer is at the site, has magnitude
    |externalFieldStrength| / (1 + 5*d^2) otherwise, d being the distance
    from the pointer to the site, and so never exceeds
    |externalFieldStrength|, with or without the polarity flag. *)
Theorem external_field_magnitude props dt (st : State R) i spin :
  spinsRef st !! i = Some spin ->
  let offset := LLG.vsub (position spin) (mousePosRef st) in
  let external := H_ext (stepSite props dt st i) in
  (offset = LLG.vzero -> external = LLG.vzero) /\
  (offset <> LLG.vzero ->
   LLG.norm external = Rabs (externalFieldStrength props) / (1 + 5 * LLG.normSq offset)) /\
  LLG.norm external <= Rabs (externalFieldStrength props).
Proof.
  intros Hi offset external.
  assert (offset = LLG.vzero -> external = LLG.vzero) as Hzero.
  { intros E. unfold external. rewrite (H_ext_signedExternalTerm _ _ _ _ _ Hi).
    unfold LLG.signedExternalTerm, LLG.externalTerm. fold offset. rewrite E, norm_vzero.
    destruct (Req_dec_T 0 0) as [_|?]; [|done].
    destruct (isFieldInverted props); apply vector3_eq; simpl; ring. }
  assert (offset <> LLG.vzero ->
          LLG.norm external
          = Rabs (externalFieldStrength props) / (1 + 5 * LLG.normSq offset)) as Hmag.
  { intros Hv. unfold external. rewrite (H_ext_signedExternalTerm _ _ _ _ _ Hi).
    unfold LLG.signedExternalTerm, LLG.externalTerm. fold offset.
    pose proof (norm_pos offset Hv) as Hpos. pose proof (normSq_nonneg offset) as Hd.
    destruct (Req_dec_T (LLG.norm offset) 0) as [E|_]; [lra|].
    assert (LLG.norm (LLG.smul (externalFieldStrength props / (1 + 5 * LLG.normSq offset))
                        (LLG.normalized offset))
            = Rabs (externalFieldStrength props) / (1 + 5 * LLG.normSq offset)) as Hn.
    { rewrite norm_smul, norm_normalized by done.
      unfold Rdiv. rewrite Rabs_mult, (Rabs_right (/ _)); [ring|].
      apply Rle_ge. left. apply Rinv_0_lt_compat. lra. }
    destruct (isFieldInverted props); [|done].
    assert (Rabs (-1) = 1) as Hone by (rewrite Rabs_left; lra).
    rewrite norm_smul, Hn, Hone. ring. }
  split; [done|]. split; [done|].
  destruct (Req_dec_T (LLG.norm offset) 0) as [E|Hne].
  - apply norm_zero in E. rewrite (Hzero E), norm_vzero. apply Rabs_pos.
  - assert (offset <> LLG.vzero) as Hv by (intros E; apply Hne; rewrite E; apply norm_vzero).
    rewrite (Hmag Hv). pose proof (normSq_nonneg offset) as Hd.
    pose proof (Rabs_pos (externalFieldStrength props)) as Ha.
    apply (Rmult_le_reg_r (1 + 5 * LLG.normSq offset)); [lra|].
    unfold Rdiv. rewrite Rmult_assoc, Rinv_l by lra. nra.
Qed.
End ExactRuns.

(** ** Stationary states, the clamp, the grid and the first version *)

Section ExactMore.
Context `{Placement R}.
Local Open Scope R_scope.

Lemma vsum_const (u : Vector3 R) (ds : list (Vector3 R)) :
  Forall (fun d => d = u) ds -> LLG.vsum ds = LLG.smul (INR (List.length ds)) u.
Proof.
  induction 1 as [|d ds -> _ IH].
  - apply vector3_eq; simpl; ring.
  - change (LLG.vsum (u :: ds)) with (LLG.vadd u (LLG.vsum ds)). rewrite IH.
    change (List.length (u :: ds)) with (S (List.length ds)). rewrite S_INR.
    apply vector3_eq; simpl; ring.
Qed.

Lemma index_elem_of {A} (arr : list A) (k : Z) (x : A) : index arr k = Some x -> x ∈ arr.
Proof.
  unfold index. destruct (k <? 0)%Z; [done|]. apply list_elem_of_lookup_2.
Qed.

Lemma omap_index_const (u : Vector3 R) (snapshot : list (Vector3 R)) (ns : list Z) :
  Forall (fun d => d = u) snapshot ->
  Forall (fun d => d = u) (omap (index snapshot) ns).
Proof.
  rewrite !Forall_forall. intros Hu d (k & _ & Hk)%list_elem_of_omap.
  by eapply Hu, index_elem_of.
Qed.

(** A unit direction parallel to the field it meets is stored again. *)
Lemma parallel_step_fixed props dt (st : State R) i spin :
  spinsRef st !! i = Some spin ->
  LLG.norm (direction spin) = 1 ->
  LLG.parallel (direction spin) (H_eff (stepSite props dt st i)) ->
  direction <$> spinsRef (stepSite props dt st i) !! i = Some (direction spin).
Proof.
  intros Hi Hm Hpar. rewrite (stepSite_new_direction _ _ _ _ _ Hi). f_equal.
  rewrite (dmdt_rule _ _ _ _ _ Hi). cbv zeta.
  rewrite (cross_parallel _ _ Hpar), cross_vzero_r, addScaledVector_vadd.
  replace (LLG.vadd (direction spin) _) with (direction spin)
    by (apply vector3_eq; simpl; ring).
  rewrite normalize_normalized by (by apply norm_one_nonzero).
  by apply normalized_unit.
Qed.

Lemma useFrame_uniform props hit delta (st : State R) (u : Vector3 R) :
  LLG.norm u = 1 -> externalFieldStrength props = 0 ->
  uniform u st -> uniform u (useFrame props hit delta st).
Proof.
  intros Hu He Hun spin' [i Hi']%list_elem_of_lookup.
  destruct (useFrame_cases props hit delta st) as [[E _]|(h & sh & Hh & Hsh & _ & _)].
  { rewrite E in Hi'. apply Hun. by eapply list_elem_of_lookup_2. }
  assert (is_Some (spinsRef st !! i)) as [spin Hi].
  { apply lookup_lt_is_Some.
    pose proof (useFrame_fixedPart props hit delta st) as E.
    apply (f_equal List.length) in E. rewrite !length_fmap in E.
    rewrite <- E. by eapply lookup_lt_Some. }
  assert (direction spin = u) as Hd by (apply Hun; by eapply list_elem_of_lookup_2).
  rewrite (useFrame_site _ _ _ _ _ _ h sh Hh Hsh Hi) in Hi'.
  set (pre := takeSnapshot (movePointer hit st)) in *.
  assert (spinsRef pre !! i = Some spin) as Hpre by done.
  pose proof (parallel_step_fixed props (timeStep props delta) pre i spin Hpre) as Hfix.
  rewrite Hi' in Hfix. simpl in Hfix. rewrite Hd in Hfix.
  assert (Some (direction spin') = Some u) as [= ->]; [|done].
  apply Hfix; [done|].
  rewrite (H_eff_sum _ _ _ _ _ Hpre), He.
  unfold LLG.signedExternalTerm. rewrite externalTerm_zero_strength.
  unfold LLG.exchangeTerm.
  rewrite (vsum_const u).
  2:{ apply omap_index_const. change (prevDirectionsRef pre) with (direction <$> spinsRef st).
      apply Forall_fmap, Forall_forall. intros s Hs. by apply Hun. }
  eexists (exchangeStrength props * 1000000 * INR _).
  destruct (isFieldInverted props); apply vector3_eq; simpl; ring.
Qed.

(** X13: in exact arithmetic, a lattice whose sites all have the same unit
    direction stays as it is through any number of frames whose external
    field strength is 0, whatever the exchange strength, the neighbour lists
    and the pointer: the exchange field of aligned neighbours is parallel to
    the direction. *)
Theorem uniform_lattice_stationary (u : Vector3 R) (st : State R)
    (inputs : list (FrameInput R)) :
  THREE.length u = 1 -> uniform u st ->
  Forall (fun f => externalFieldStrength (frameProps f) = 0) inputs ->
  uniform u (runFrames inputs st).
Proof.
  intros Hu Hun Hin. rewrite length_norm in Hu. revert st Hun.
  induction Hin as [|f inputs Hf _ IH]; intros st Hun; [done|].
  rewrite runFrames_cons. by apply IH, useFrame_uniform.
Qed.

(** X14: in exact arithmetic a frame whose clock delta is 0.03 or more does
    exactly what the frame with delta = 0.03 does: slow frames do not
    lengthen the step. *)
Theorem slow_frames_clamped props hit (delta : R) (st : State R) :
  3 / 100 <= delta ->
  useFrame props hit delta st = useFrame props hit (3 / 100) st.
Proof.
  intros Hd. unfold useFrame, useFrameIn.
  assert (timeStep props delta = timeStep props (3 / 100)) as ->; [|done].
  unfold timeStep. simpl. by rewrite (Rmin_right delta), (Rmin_left (3 / 100)) by lra.
Qed.

(** X15: in exact arithmetic the built grid lies in the plane z = 0, is
    centred on the origin (the site opposite to (i, j), at
    (N-1-i, N-1-j), has the opposite position) and has spacing 1/2 along
    both axes. *)
Theorem lattice_centred props (st : State R) (i j : Z) :
  (0 <= i < gridSize props)%Z -> (0 <= j < gridSize props)%Z ->
  let N := gridSize props in
  exists st' s s', buildLattice props st = Normal st' /\
    index (spinsRef st') (i * N + j) = Some s /\
    index (spinsRef st') ((N - 1 - i) * N + (N - 1 - j)) = Some s' /\
    vz (position s) = 0 /\
    position s' = LLG.smul (-1) (position s) /\
    (forall s2, index (spinsRef st') ((i + 1) * N + j) = Some s2 -> (i + 1 < N)%Z ->
       LLG.vsub (position s2) (position s) = mkVector3 (1 / 2) 0 0) /\
    (forall s2, index (spinsRef st') (i * N + (j + 1)) = Some s2 -> (j + 1 < N)%Z ->
       LLG.vsub (position s2) (position s) = mkVector3 0 (1 / 2) 0).
Proof.
  intros Hi Hj N.
  destruct (buildLattice_spins props st) as (st' & Hb & Hs).
  exists st', (siteAt N i j), (siteAt N (N - 1 - i) (N - 1 - j)).
  split; [done|]. rewrite Hs.
  split; [by apply lattice_lookup|]. split; [apply lattice_lookup; lia|].
  split; [done|]. split.
  - apply vector3_eq; simpl; rewrite ?minus_IZR; field.
  - split.
    + intros s2 Hs2 Hlt. rewrite lattice_lookup in Hs2 by lia. injection Hs2 as <-.
      apply vector3_eq; simpl; rewrite ?plus_IZR; field.
    + intros s2 Hs2 Hlt. rewrite lattice_lookup in Hs2 by lia. injection Hs2 as <-.
      apply vector3_eq; simpl; rewrite ?plus_IZR; field.
Qed.

Lemma first_version_stepSite gridSize dt (st : State R) i :
  FirstVersion.stepSite dt st i = stepSite (FirstVersion.props gridSize) dt st i.
Proof.
  unfold FirstVersion.stepSite, stepSite.
  destruct (spinsRef st !! i) as [spin|]; [|done].
  cbv zeta.
  cbn [isFieldInverted gamma alpha exchangeStrength externalFieldStrength FirstVersion.props].
  assert (forall x : R, neg x = mul x (neg one)) as E by (intros x; simpl; ring).
  by rewrite (E (div FirstVersion.EXTERNAL_FIELD_STRENGTH _)).
Qed.

(** X16: in exact arithmetic the callback of the first version of the
    component, with its constants and its always negated field strength,
    leaves after every frame exactly the state the present callback leaves
    with those constants as props and the field-polarity flag set. *)
Theorem first_version_is_inverted_field gridSize hit delta (st : State R) :
  FirstVersion.useFrame hit delta st = useFrame (FirstVersion.props gridSize) hit delta st.
Proof.
  unfold FirstVersion.useFrame, useFrame, useFrameIn, stepSites. cbv zeta.
  destruct (headMeshRef (movePointer hit st)); [|done].
  destruct (shaftMeshRef (movePointer hit st)); [|done].
  destruct (spinsRef (movePointer hit st)) as [|s0 spins] eqn:E; [done|].
  change (spinsRef (takeSnapshot (movePointer hit st))) with (spinsRef (movePointer hit st)).
  change (spinsRef (movePointer hit st)) with (spinsRef st) in *.
  rewrite E.
  change (timeStep (FirstVersion.props gridSize) delta)
    with (mul (min delta (div (ofZ 3) (ofZ 100))) FirstVersion.TIME_STEP_SCALE).
  generalize (mul (min delta (div (ofZ 3) (ofZ 100))) FirstVersion.TIME_STEP_SCALE) as dt.
  intros dt. generalize (takeSnapshot (movePointer hit st)) as pre.
  generalize (seq 0 (List.length (s0 :: spins))) as order. clear.
  intros order. induction order as [|i order IH]; intros pre; [done|]. simpl.
  by rewrite IH, (first_version_stepSite gridSize).
Qed.
End ExactMore.

Section ExactMoreExamples.
Local Open Scope R_scope.

Lemma pair_uniform : uniform (mkVector3 0 0 1) ExampleR.pair.
Proof.
  intros spin Hin.
  apply elem_of_cons in Hin as [->|Hin]; [reflexivity|].
  apply elem_of_cons in Hin as [->|Hin]; [reflexivity|].
  by apply elem_of_nil in Hin.
Qed.

Lemma unit_directions_invariant_witness :
  exists st', buildLattice (ExampleR.props 6) (mounted ExampleR.blank 4) = Normal st' /\
    unitDirections (runFrames [mkFrameInput (ExampleR.props 6) (Some (mkVector3 3 4 0)) 1;
                               mkFrameInput (ExampleR.props 0) None (1 / 100)] st').
Proof.
  eexists. split; [reflexivity|].
  exact (unit_directions_invariant (ExampleR.props 6) (mounted ExampleR.blank 4) _
           [mkFrameInput (ExampleR.props 6) (Some (mkVector3 3 4 0)) 1;
            mkFrameInput (ExampleR.props 0) None (1 / 100)] eq_refl).
Defined.

Lemma euler_increment_orthogonal_witness :
  let increment := dmdt (stepSite (ExampleR.props 6) 1 ExampleR.pair 0%nat) in
  dot (mkVector3 0 0 1) increment = 0 /\
  THREE.lengthSq (THREE.addScaledVector (mkVector3 0 0 1) increment 1)
  = THREE.lengthSq (mkVector3 0 0 1 : Vector3 R) + 1 ^ 2 * THREE.lengthSq increment.
Proof.
  exact (euler_increment_orthogonal (ExampleR.props 6) 1 ExampleR.pair 0%nat _ eq_refl).
Defined.

Lemma external_field_magnitude_witness :
  let offset := LLG.vsub (mkVector3 0 0 0) (mkVector3 3 4 0) in
  let external := H_ext (stepSite (ExampleR.props 6) 1 ExampleR.pair 0%nat) in
  (offset = LLG.vzero -> external = LLG.vzero) /\
  (offset <> LLG.vzero -> LLG.norm external = Rabs 6 / (1 + 5 * LLG.normSq offset)) /\
  LLG.norm external <= Rabs 6.
Proof.
  exact (external_field_magnitude (ExampleR.props 6) 1 ExampleR.pair 0%nat _ eq_refl).
Defined.

Lemma uniform_lattice_stationary_witness :
  uniform (mkVector3 0 0 1)
    (runFrames [mkFrameInput (ExampleR.props 0) (Some (mkVector3 3 4 0)) 1;
                mkFrameInput (ExampleR.props 0) None (1 / 100)] ExampleR.pair).
Proof.
  apply (uniform_lattice_stationary (mkVector3 0 0 1) ExampleR.pair
           [mkFrameInput (ExampleR.props 0) (Some (mkVector3 3 4 0)) 1;
            mkFrameInput (ExampleR.props 0) None (1 / 100)]).
  - apply length_up.
  - apply pair_uniform.
  - repeat constructor.
Defined.

Lemma slow_frames_clamped_witness :
  useFrame (ExampleR.props 6) None 1 ExampleR.pair
  = useFrame (ExampleR.props 6) None (3 / 100) ExampleR.pair.
Proof.
  apply (slow_frames_clamped (ExampleR.props 6) None 1 ExampleR.pair). lra.
Defined.

Lemma lattice_centred_witness :
  exists st' s s', buildLattice (ExampleR.props 6) (mounted ExampleR.blank 4) = Normal st' /\
    index (spinsRef st') (0 * 2 + 1) = Some s /\
    index (spinsRef st') ((2 - 1 - 0) * 2 + (2 - 1 - 1)) = Some s' /\
    vz (position s) = 0 /\
    position s' = LLG.smul (-1) (position s) /\
    (forall s2, index (spinsRef st') ((0 + 1) * 2 + 1) = Some s2 -> (0 + 1 < 2)%Z ->
       LLG.vsub (position s2) (position s) = mkVector3 (1 / 2) 0 0) /\
    (forall s2, index (spinsRef st') (0 * 2 + (1 + 1)) = Some s2 -> (1 + 1 < 2)%Z ->
       LLG.vsub (position s2) (position s) = mkVector3 0 (1 / 2) 0).
Proof.
  pose proof (lattice_centred (ExampleR.props 6) (mounted ExampleR.blank 4) 0 1) as P.
  cbv zeta in P. apply P; simpl; lia.
Defined.
End ExactMoreExamples.

(** The first version and the present callback with the flag set, on
    binary64 and the 2 x 2 lattice: the same four directions. *)
Example first_version_binary64 :
  direction <$> spinsRef (FirstVersion.useFrame (Some (mkVector3 0.3 0.1 0)%float)
                            0.016%float (Example.build 2))
  = direction <$> spinsRef (useFrame (FirstVersion.props 2) (Some (mkVector3 0.3 0.1 0)%float)
                              0.016%float (Example.build 2)).
Proof. vm_compute. reflexivity. Qed.

(** ** The snapshot and the neighbour lists of a built lattice *)

Section SnapshotFacts.
Context {T : Type} `{Number T} `{Placement T}.

(** X17: the snapshot the second effect stores is never read: when both
    meshes are mounted and the lattice is not empty, a frame, and so every
    run of frames, from the state after that effect ends in exactly the state
    it ends in without the effect, because the callback takes its own
    snapshot before it reads one. *)
Theorem effect_snapshot_is_overwritten (f : FrameInput T) (inputs : list (FrameInput T))
    (st : State T) h sh :
  headMeshRef st = Some h -> shaftMeshRef st = Some sh -> spinsRef st <> [] ->
  runFrames (f :: inputs) (snapshotEffect st) = runFrames (f :: inputs) st.
Proof.
  intros Hh Hsh Hne. rewrite !runFrames_cons. f_equal.
  unfold useFrame, useFrameIn. simpl. rewrite Hh, Hsh.
  by destruct (spinsRef st).
Qed.

(** X18: after a build and any number of frames, every index in the
    neighbour list of a site is the index of a site of the lattice, and so
    has an entry in the snapshot of directions the next frame takes: on a
    built lattice the callback never skips a neighbour. *)
Theorem built_neighbors_have_entries props (st st' : State T)
    (inputs : list (FrameInput T)) (i : nat) (spin : Spin T) (k : Z) :
  buildLattice props st = Normal st' ->
  spinsRef (runFrames inputs st') !! i = Some spin -> k ∈ neighbors spin ->
  is_Some (index (spinsRef (runFrames inputs st')) k) /\
  is_Some (index (direction <$> spinsRef (runFrames inputs st')) k).
Proof.
  intros Hb Hi Hk.
  destruct (buildLattice_spins props st) as (st'' & Hb' & Hs).
  rewrite Hb in Hb'. injection Hb' as <-.
  pose proof (runFrames_fixedPart inputs st') as Hfix.
  pose proof (f_equal List.length Hfix) as Hlen. rewrite !length_fmap in Hlen.
  rewrite Hs in Hfix, Hlen.
  assert ((fixedPart <$> lattice (gridSize props)) !! i = Some (fixedPart spin)) as Hi0.
  { by rewrite <- Hfix, list_lookup_fmap, Hi. }
  rewrite list_lookup_fmap in Hi0.
  destruct (lattice (gridSize props) !! i) as [s0|] eqn:E0; [|done].
  simpl in Hi0. injection Hi0 as _ _ Hn.
  assert (index (lattice (gridSize props)) (Z.of_nat i) = Some s0) as E0'.
  { unfold index. destruct (Z.ltb_spec (Z.of_nat i) 0); [lia|]. by rewrite Nat2Z.id. }
  rewrite <- Hn in Hk.
  pose proof (lattice_neighborsInBounds (gridSize props) _ _ _ E0' Hk) as Hbound.
  rewrite lattice_length in Hlen.
  assert (Z.to_nat k < List.length (spinsRef (runFrames inputs st')))%nat as Hlt.
  { rewrite Hlen.
    apply lattice_lookup_nat in E0 as (i0 & j0 & Hi0 & _).
    rewrite <- Z2Nat.inj_mul by lia. apply Z2Nat.inj_lt; lia. }
  unfold index. destruct (Z.ltb_spec k 0); [lia|].
  split; apply lookup_lt_is_Some; [done|by rewrite length_fmap].
Qed.
End SnapshotFacts.

Lemma effect_snapshot_is_overwritten_witness :
  let f := mkFrameInput (Example.props 2 false) (Some (mkVector3 0.3 0.1 0)%float)
             0.016%float in
  let st := match buildLattice (Example.props 2 false) (mounted Example.blank 4) with
            | Normal st => st
            | Throw _ => mounted Example.blank 4
            end in
  runFrames [f; f] (snapshotEffect st) = runFrames [f; f] st.
Proof.
  intros f st.
  apply (effect_snapshot_is_overwritten f [f] st _ _ eq_refl eq_refl). discriminate.
Defined.

Lemma built_neighbors_have_entries_witness :
  let f := mkFrameInput (Example.props 2 false) (Some (mkVector3 0.3 0.1 0)%float)
             0.016%float in
  exists st', buildLattice (Example.props 2 false) (mounted Example.blank 4) = Normal st' /\
    is_Some (index (spinsRef (runFrames [f] st')) 2) /\
    is_Some (index (direction <$> spinsRef (runFrames [f] st')) 2).
Proof.
  intros f. eexists. split; [reflexivity|].
  eapply (built_neighbors_have_entries (Example.props 2 false) (mounted Example.blank 4) _
            [f] 0%nat _ 2 eq_refl).
  - reflexivity.
  - vm_compute. apply list_elem_of_here.
Defined.

(** ** Where binary64 leaves exact arithmetic *)



(** C3 as stated fails on binary64: with the default parameters, a site at
    the origin and the pointer at (1e-170, 0, 0), the offset is not zero but
    its squared length underflows to 0, [normalize] leaves it as it is, and
    the field is (-2e-165, 0, 0), where the claim's external term is the unit
    vector (-1, 0, 0) scaled by 2e5 and its exchange term is zero. *)
Lemma field_evaluator_counterexample :
  let st := Binary64.underPointer in
  let props := Example.props 1 false in
  let pre := takeSnapshot (movePointer None st) in
  let offset := THREE.subVectors Binary64.origin (pointerAfter None st) in
  offset = mkVector3 (-1e-170)%float 0%float 0%float /\
  THREE.lengthSq offset = 0%float /\
  div (externalFieldStrength props) (add one (mul (ofZ 5) (THREE.lengthSq offset)))
  = 2e5%float /\
  H_exch (stepSite props 1.5e-11%float pre 0%nat) = mkVector3 0%float 0%float 0%float /\
  H_eff (stepSite props 1.5e-11%float pre 0%nat) = mkVector3 (-2e-165)%float 0%float 0%float.
Proof.
  intros st props pre offset. repeat split; vm_compute; reflexivity.
Qed.



(** ** The rule in the arithmetic of the program *)

Lemma SFmul_comm prec emax x y : SpecFloat.SFmul prec emax x y = SpecFloat.SFmul prec emax y x.
Proof.
  destruct x as [sx|sx| |sx mx ex], y as [sy|sy| |sy my ey]; simpl;
    rewrite ?(xorb_comm sx sy), ?(Pos.mul_comm mx my), ?(Z.add_comm ex ey); reflexivity.
Qed.

Lemma float_mul_comm (a b : float) : mul a b = mul b a.
Proof.
  apply FloatAxioms.Prim2SF_inj. simpl.
  rewrite !FloatAxioms.mul_spec. apply SFmul_comm.
Qed.

Section RuleInArithmetic.
Context {T : Type} `{Number T} `{Placement T}.

(** X19: in any arithmetic whose multiplication is commutative, as that of
    binary64 and that of the reals are, the direction a frame stores for a
    site is the specification's rule with every operation taken in that
    arithmetic: normalize(m + dm/dt . dt) with
    gamma_eff = gamma / (1 + alpha . alpha),
    term1 = -gamma_eff . (m x H_eff),
    term2 = -gamma_eff . alpha . (m x (m x H_eff)) and dm/dt = term1 + term2,
    for the field the callback computes for the site on the pre-step state
    and the frame's time step, whether or not the direction is a unit
    vector. *)
Theorem step_follows_rule_in_arithmetic props hit delta (st : State T) i spin h sh :
  (forall a b : T, mul a b = mul b a) ->
  headMeshRef st = Some h -> shaftMeshRef st = Some sh ->
  spinsRef st !! i = Some spin ->
  let dt := timeStep props delta in
  let field := H_eff (stepSite props dt (takeSnapshot (movePointer hit st)) i) in
  direction <$> spinsRef (useFrame props hit delta st) !! i
  = Some (Rule.m_new (gamma props) (alpha props) (direction spin) field dt).
Proof.
  intros Hcomm Hh Hsh Hi dt field.
  rewrite (useFrame_site _ _ _ _ _ _ h sh Hh Hsh Hi).
  assert (spinsRef (takeSnapshot (movePointer hit st)) !! i = Some spin) as Hi' by done.
  rewrite (stepSite_new_direction _ _ _ _ _ Hi'), (stepSite_dmdt _ _ _ _ _ Hi').
  cbv zeta. fold dt field. f_equal.
  assert (forall (v : Vector3 T) k, THREE.multiplyScalar v k = Rule.smul k v) as Hs.
  { intros v k. unfold THREE.multiplyScalar, Rule.smul. by rewrite !(Hcomm k). }
  rewrite !Hs. reflexivity.
Qed.
End RuleInArithmetic.

Lemma step_follows_rule_in_arithmetic_witness :
  let st := Binary64.aligned in
  let props := Example.props 1 false in
  let dt := timeStep props 0.016%float in
  let field := H_eff (stepSite props dt (takeSnapshot (movePointer None st)) 0%nat) in
  direction <$> spinsRef (useFrame props None 0.016%float st) !! 0%nat
  = Some (Rule.m_new (gamma props) (alpha props) Binary64.slanted field dt).
Proof.
  intros st props dt field.
  exact (step_follows_rule_in_arithmetic props None 0.016%float st 0%nat _ _ _
           float_mul_comm eq_refl eq_refl eq_refl).
Defined.
